(** * Bloom filter and HyperLogLog: a shallow embedding of [task1.py] and
    [task2/task2.py], with the properties their specification states.

    Layout: a model of the Python runtime the two files rely on ([Py]),
    the hash and logarithm routines of the standard library taken as
    parameters ([hashlib], [ln]), the code of [task1.py] ([task1]) and of
    [task2/task2.py] ([task2]), the predicates the statements use
    ([spec1], [spec2]), then the lemmas: the runtime ([PyFacts]), the
    filter ([task1_facts]), the uniqueness check ([classifier_facts]),
    binary64 arithmetic ([FloatFacts]), the estimator ([task2_facts],
    [estimate_facts]) and runs on concrete inputs ([examples]).

    Errors: the code raises [ValueError] where the specification says
    [InvalidArgument] and [TypeError] where it says [TypeInvalid]. *)

From Stdlib Require Import DecimalString String Ascii.
From Stdlib.Strings Require Import Byte.
From Stdlib Require Import ZArith NArith List Bool Lia Floats Permutation.
Import ListNotations.
Local Open Scope Z_scope.

(* ================================================================== *)
(** * The Python runtime *)
(* ================================================================== *)

Module Py.

(** The exceptions that the modelled code can raise. *)
Inductive exn : Type :=
| ValueError
| TypeError
| IndexError
| AttributeError
| ZeroDivisionError
| OverflowError.

(** A computation either returns or raises. *)
Inductive result (A : Type) : Type :=
| Ok (a : A)
| Raise (e : exn).
Arguments Ok {A} a.
Arguments Raise {A} e.

Definition bind {A B : Type} (c : result A) (k : A -> result B) : result B :=
  match c with
  | Ok a => k a
  | Raise e => Raise e
  end.

Notation "x <- c ;; k" := (bind c (fun x => k))
  (at level 61, c at next level, right associativity).
Notation "' pat <- c ;; k" := (bind c (fun x => match x with pat => k end))
  (at level 61, pat pattern, c at next level, right associativity).

(** [for x in xs: acc = f(acc, x)], stopping at the first exception. *)
Fixpoint foldM {A S : Type} (f : S -> A -> result S) (xs : list A) (s : S)
  : result S :=
  match xs with
  | [] => Ok s
  | x :: xs' => s' <- f s x ;; foldM f xs' s'
  end.

Fixpoint mapM {A B : Type} (f : A -> result B) (xs : list A)
  : result (list B) :=
  match xs with
  | [] => Ok []
  | x :: xs' => y <- f x ;; ys <- mapM f xs' ;; Ok (y :: ys)
  end.

(** A [str] is a sequence of Unicode code points. *)
Definition str : Type := list N.

Definition str_eqb (a b : str) : bool :=
  if list_eq_dec N.eq_dec a b then true else false.

(** The values a caller can pass where the code expects text or an
    integer: [None], a [bool], an [int], a [str]. *)
Inductive value : Type :=
| VNone
| VBool (b : bool)
| VInt (z : Z)
| VStr (s : str).

(** [isinstance(v, int)]: [bool] is a subclass of [int]. *)
Definition as_int (v : value) : option Z :=
  match v with
  | VInt z => Some z
  | VBool b => Some (if b then 1 else 0)
  | _ => None
  end.

Definition str_of_string (s : string) : str :=
  map N_of_ascii (list_ascii_of_string s).

(** [str(v)]. *)
Definition py_str (v : value) : str :=
  match v with
  | VNone => str_of_string "None"%string
  | VBool true => str_of_string "True"%string
  | VBool false => str_of_string "False"%string
  | VInt z => str_of_string (NilZero.string_of_int (Z.to_int z))
  | VStr s => s
  end.

(** [c.isspace()] for a single code point. *)
Definition isspace (c : N) : bool :=
  ((0x09 <=? c) && (c <=? 0x0D) || (0x1C <=? c) && (c <=? 0x20)
   || (c =? 0x85) || (c =? 0xA0) || (c =? 0x1680)
   || (0x2000 <=? c) && (c <=? 0x200A)
   || (c =? 0x2028) || (c =? 0x2029) || (c =? 0x202F)
   || (c =? 0x205F) || (c =? 0x3000))%N.

Fixpoint lstrip (s : str) : str :=
  match s with
  | c :: s' => if isspace c then lstrip s' else s
  | [] => []
  end.

(** [s.strip()]. *)
Definition strip (s : str) : str := rev (lstrip (rev (lstrip s))).

Definition byte_of_N (n : N) : byte :=
  match Byte.of_N (n mod 256) with
  | Some b => b
  | None => x00
  end.

(** UTF-8 with [errors="replace"]: a lone surrogate, the only code point
    UTF-8 cannot encode, becomes [?]. *)
Definition encode_code_point (c : N) : list byte :=
  (if c <? 0x80 then [byte_of_N c]
   else if c <? 0x800 then
     [byte_of_N (0xC0 + c / 0x40); byte_of_N (0x80 + c mod 0x40)]
   else if (0xD800 <=? c) && (c <=? 0xDFFF) then [byte_of_N 0x3F]
   else if c <? 0x10000 then
     [byte_of_N (0xE0 + c / 0x1000); byte_of_N (0x80 + (c / 0x40) mod 0x40);
      byte_of_N (0x80 + c mod 0x40)]
   else
     [byte_of_N (0xF0 + c / 0x40000); byte_of_N (0x80 + (c / 0x1000) mod 0x40);
      byte_of_N (0x80 + (c / 0x40) mod 0x40); byte_of_N (0x80 + c mod 0x40)])%N.

(** [s.encode("utf-8", errors="replace")]. *)
Definition encode (s : str) : list byte := flat_map encode_code_point s.

(** [int.from_bytes(d, "big")], unsigned. *)
Definition from_bytes_big (d : list byte) : Z :=
  fold_left (fun acc b => acc * 256 + Z.of_N (Byte.to_N b)) d 0.

(** [range(n)]. *)
Definition range (n : Z) : list Z := map Z.of_nat (seq 0 (Z.to_nat n)).

(** [a % b] on integers: the result has the sign of [b]. *)
Definition py_mod (a b : Z) : result Z :=
  if b =? 0 then Raise ZeroDivisionError else Ok (a mod b).

(** [a << n] and [a >> n]: a negative count is an error. *)
Definition py_lshift (a n : Z) : result Z :=
  if n <? 0 then Raise ValueError else Ok (Z.shiftl a n).

Definition py_rshift (a n : Z) : result Z :=
  if n <? 0 then Raise ValueError else Ok (Z.shiftr a n).

(** [w.bit_length()]. *)
Definition bit_length (w : Z) : Z :=
  if w =? 0 then 0 else Z.log2 (Z.abs w) + 1.

(** Sequence indexing: a negative index counts from the end, an index
    outside the sequence raises [IndexError]. *)
Definition norm_index {A : Type} (l : list A) (i : Z) : result nat :=
  let n := Z.of_nat (length l) in
  let j := if i <? 0 then i + n else i in
  if (j <? 0) || (n <=? j) then Raise IndexError else Ok (Z.to_nat j).

Fixpoint update {A : Type} (l : list A) (n : nat) (a : A) : list A :=
  match l, n with
  | [], _ => []
  | _ :: l', O => a :: l'
  | x :: l', S n' => x :: update l' n' a
  end.

Definition getitem {A : Type} (l : list A) (i : Z) : result A :=
  n <- norm_index l i ;;
  match nth_error l n with
  | Some a => Ok a
  | None => Raise IndexError
  end.

Definition setitem {A : Type} (l : list A) (i : Z) (a : A)
  : result (list A) :=
  n <- norm_index l i ;; Ok (update l n a).

(** Item assignment of a [bytearray]: the value must be a byte. *)
Definition bytearray_setitem (l : list Z) (i : Z) (v : Z)
  : result (list Z) :=
  n <- norm_index l i ;;
  if (v <? 0) || (256 <=? v) then Raise ValueError else Ok (update l n v).



(** ** Floating point: IEEE 754 binary64, as Python's [float]. *)

(** [float(z)], rounding to nearest: the hardware conversion where the
    integer fits a machine word, the same rounding spelled out beyond.
    (From about [2 ** 1024] on Python raises [OverflowError] where this
    gives infinity; the integers converted here are [m], [m * m] and a
    register count, at most [2 ** 40].) *)
Definition float_of_int (z : Z) : float :=
  if (0 <=? z) && (z <? 2 ^ 63) then of_uint63 (Uint63.of_Z z)
  else SF2Prim (binary_normalize prec emax z 0 false).

(** [2.0 ** e] for an integer [e]: the exponent is first converted to a
    float, the power overflows from [2 ** 1024] on and underflows to zero
    without an error. *)
Definition float_pow2 (e : Z) : result float :=
  if (2 ^ 1024 - 2 ^ 970 <=? Z.abs e) || (1024 <=? e) then Raise OverflowError
  else Ok (Z.ldexp 1%float e).

(** [x / y] on floats. *)
Definition float_div (x y : float) : result float :=
  if (y =? 0)%float then Raise ZeroDivisionError else Ok (x / y)%float.

(** [a / b] on integers (true division), for operands a float holds
    exactly (below [2 ** 53] in magnitude). *)
Definition int_truediv (a b : Z) : result float :=
  if b =? 0 then Raise ZeroDivisionError
  else Ok (float_of_int a / float_of_int b)%float.

(** [math.log(x)]: [ln] is the library's logarithm where it is defined;
    zero and negative arguments are a domain error. *)
Definition math_log (ln : float -> float) (x : float) : result float :=
  if (x <=? 0)%float then Raise ValueError else Ok (ln x).

End Py.
Import Py.

(* ================================================================== *)
(** * [hashlib] *)
(* ================================================================== *)

(** The three digests the code calls, with the digest sizes they are
    called with: [sha256] (32 bytes), [md5] (16 bytes) and [blake2b]
    with [digest_size=8]. *)
Class hashlib : Type := {
  sha256 : list byte -> list byte;
  md5 : list byte -> list byte;
  blake2b_8 : list byte -> list byte;
  sha256_digest_size : forall b, length (sha256 b) = 32%nat;
  md5_digest_size : forall b, length (md5 b) = 16%nat;
  blake2b_8_digest_size : forall b, length (blake2b_8 b) = 8%nat
}.

(* ================================================================== *)
(** * [task1.py]: the Bloom filter and the uniqueness check *)
(* ================================================================== *)

Module task1.

(** The attributes of a [BloomFilter] object; [_bits] is the
    [bytearray], one integer in [0, 256) per byte. *)
Record BloomFilter : Type := mkBloomFilter {
  size : Z;
  num_hashes : Z;
  _bits : list Z
}.



Section WithHashlib.
Context {H : hashlib}.

Definition __init__ (size num_hashes : value) : result BloomFilter :=
  match as_int size, as_int num_hashes with
  | Some sz, Some k =>
      if sz <=? 0 then Raise ValueError
      else if k <=? 0 then Raise ValueError
      else Ok (mkBloomFilter sz k (repeat 0 (Z.to_nat ((sz + 7) / 8))))
  | _, _ => Raise ValueError
  end.

Definition _set_bit (self : BloomFilter) (idx : Z) : result BloomFilter :=
  let byte_i := idx / 8 in
  let bit_i := idx mod 8 in
  old <- getitem (_bits self) byte_i ;;
  mask <- py_lshift 1 bit_i ;;
  bits' <- bytearray_setitem (_bits self) byte_i (Z.lor old mask) ;;
  Ok (mkBloomFilter (size self) (num_hashes self) bits').

Definition _get_bit (self : BloomFilter) (idx : Z) : result Z :=
  let byte_i := idx / 8 in
  let bit_i := idx mod 8 in
  old <- getitem (_bits self) byte_i ;;
  shifted <- py_rshift old bit_i ;;
  Ok (Z.land shifted 1).

(** The two digests of an item, as integers. *)
Definition h1 (item : str) : Z := from_bytes_big (sha256 (encode item)).

Definition h2 (item : str) : Z :=
  let v := from_bytes_big (md5 (encode item)) in
  if v =? 0 then 1 else v.

(** The generator, as the list of the positions it yields. The only
    exception it can raise comes from [% self.size] and does not depend
    on the probe index, so it is raised before the first position. *)
Definition _hash_positions (self : BloomFilter) (item : str)
  : result (list Z) :=
  mapM (fun i => py_mod (h1 item + i * h2 item) (size self))
       (range (num_hashes self)).

Definition add (self : BloomFilter) (item : value) : result BloomFilter :=
  match item with
  | VStr s =>
      ps <- _hash_positions self s ;;
      foldM _set_bit ps self
  | _ => Raise TypeError
  end.

(** [all(self._get_bit(pos) for pos in ...)]: stops at the first bit
    that is clear. *)
Fixpoint all_bits (self : BloomFilter) (ps : list Z) : result bool :=
  match ps with
  | [] => Ok true
  | pos :: ps' =>
      b <- _get_bit self pos ;;
      if b =? 0 then Ok false else all_bits self ps'
  end.

Definition contains (self : BloomFilter) (item : value) : result bool :=
  match item with
  | VStr s =>
      ps <- _hash_positions self s ;;
      all_bits self ps
  | _ => Raise TypeError
  end.





End WithHashlib.
End task1.

(* ================================================================== *)
(** * [task2/task2.py]: HyperLogLog *)
(* ================================================================== *)

Module task2.

Record HyperLogLog : Type := mkHyperLogLog {
  p : Z;
  m : Z;
  registers : list Z;
  alpha : float
}.

Definition two64 : float := Z.ldexp 1%float 64.

Section WithLibraries.
Context {H : hashlib}.
Variable ln : float -> float.

Definition __init__ (pv : value) : result HyperLogLog :=
  match as_int pv with
  | None => Raise ValueError
  | Some p =>
      if (p <? 4) || (20 <? p) then Raise ValueError
      else
        let m := Z.shiftl 1 p in
        let registers := repeat 0 (Z.to_nat m) in
        let alpha :=
          if m =? 16 then 0x1.589374bc6a7fp-1%float          (* 0.673 *)
          else if m =? 32 then 0x1.64dd2f1a9fbe7p-1%float    (* 0.697 *)
          else if m =? 64 then 0x1.6b020c49ba5e3p-1%float    (* 0.709 *)
          else (0x1.714e3bcd35a86p-1                         (* 0.7213 *)
                / (1 + 0x1.14395810624ddp+0                  (* 1.079 *)
                       / float_of_int m))%float in
        Ok (mkHyperLogLog p m registers alpha)
  end.

Definition _hash64 (x : value) : result Z :=
  match x with
  | VStr s => Ok (from_bytes_big (blake2b_8 (encode s)))
  | _ => Raise AttributeError
  end.

Definition _clz (w bits : Z) : Z :=
  if w =? 0 then bits else bits - bit_length w.

Definition add (self : HyperLogLog) (item : value) : result HyperLogLog :=
  x <- _hash64 item ;;
  idx <- py_rshift x (64 - p self) ;;
  one <- py_lshift 1 (64 - p self) ;;
  let w := Z.land x (one - 1) in
  let rho := _clz w (64 - p self) + 1 in
  old <- getitem (registers self) idx ;;
  if old <? rho then
    regs' <- setitem (registers self) idx rho ;;
    Ok (mkHyperLogLog (p self) (m self) regs' (alpha self))
  else Ok self.

(** The loop of [estimate]: the pair [(inv_sum, zeros)]. *)
Definition scan (acc : float * Z) (r : Z) : result (float * Z) :=
  let '(inv_sum, zeros) := acc in
  t <- float_pow2 (- r) ;;
  Ok ((inv_sum + t)%float, if r =? 0 then zeros + 1 else zeros).

(** [self.alpha * (m * m) / inv_sum]. *)
Definition raw_estimate (self : HyperLogLog) (inv_sum : float)
  : result float :=
  float_div (alpha self * float_of_int (m self * m self))%float inv_sum.

Definition estimate (self : HyperLogLog) : result float :=
  let m := m self in
  '(inv_sum, zeros) <- foldM scan (registers self) (0%float, 0) ;;
  raw <- raw_estimate self inv_sum ;;
  if (raw <=? 0x1.4p+1 * float_of_int m)%float && (0 <? zeros) then
    q <- int_truediv m zeros ;;
    l <- math_log ln q ;;
    Ok (float_of_int m * l)%float
  else if (two64 / 0x1.ep+4 <? raw)%float then
    l <- math_log ln (1 - raw / two64)%float ;;
    Ok ((- two64) * l)%float
  else Ok raw.

(** [hll_unique_count]: the iterable is taken as the list of the items
    it yields. *)
Definition hll_unique_count (ips : list value) (p : value) : result float :=
  hll <- __init__ p ;;
  hll <- foldM add ips hll ;;
  estimate hll.

End WithLibraries.

(** A [set] of strings, kept as a list without repetitions: [s.add(ip)]
    leaves the set as it is when [ip] is a member. *)
Definition set_add (s : list str) (ip : str) : list str :=
  if existsb (str_eqb ip) s then s else s ++ [ip].

(** [exact_unique_count], on a stream of strings. *)
Definition exact_unique_count (ips : list str) : Z :=
  let s := fold_left set_add ips [] in
  Z.of_nat (length s).

End task2.

(* ================================================================== *)
(** * Specification predicates and a concrete [hashlib] *)
(* ================================================================== *)

(** A stand-in for [hashlib] on which the code can be run: each digest
    is the input cut, or padded with zero bytes, to the digest size. It
    shows that the interface is inhabited and gives the examples below a
    concrete instance; no property of the real digests is drawn from it. *)
Definition pad_digest (n : nat) (b : list byte) : list byte :=
  firstn n (b ++ repeat x00 n).

Lemma pad_digest_length (n : nat) (b : list byte) :
  length (pad_digest n b) = n.
Proof.
  unfold pad_digest.
  rewrite length_firstn, length_app, repeat_length. lia.
Qed.

Definition toy_hashlib : hashlib :=
  {| sha256 := pad_digest 32;
     md5 := pad_digest 16;
     blake2b_8 := pad_digest 8;
     sha256_digest_size := pad_digest_length 32;
     md5_digest_size := pad_digest_length 16;
     blake2b_8_digest_size := pad_digest_length 8 |}.

(** Text written with ASCII characters, as a [str] value. *)
Definition text (s : string) : value := VStr (str_of_string s).

Module spec1.
Import task1.

(** What the constructor establishes and every method keeps. *)
Record wf (bf : BloomFilter) : Prop := mk_wf {
  wf_size : 0 < size bf;
  wf_num_hashes : 0 < num_hashes bf;
  wf_length : length (_bits bf) = Z.to_nat ((size bf + 7) / 8);
  wf_bytes : Forall (fun b => 0 <= b < 256) (_bits bf)
}.

(** The filter states a program can reach: a constructed filter, then
    any number of insertions. *)
Inductive reachable {H : hashlib} : BloomFilter -> Prop :=
| reachable_init (size num_hashes : value) (bf : BloomFilter) :
    __init__ size num_hashes = Ok bf -> reachable bf
| reachable_add (bf bf' : BloomFilter) (item : value) :
    reachable bf -> add bf item = Ok bf' -> reachable bf'.

(** Bit [idx] of the packed bit vector. *)
Definition bit (bf : BloomFilter) (idx : Z) : bool :=
  Z.testbit (nth (Z.to_nat (idx / 8)) (_bits bf) 0) (idx mod 8).

(** The value of a digest read as a big-endian unsigned integer: the
    first byte is the most significant one. *)
Fixpoint be_uint (d : list byte) : Z :=
  match d with
  | [] => 0
  | b :: d' => Z.of_N (Byte.to_N b) * 256 ^ Z.of_nat (length d') + be_uint d'
  end.

(** The probe positions as the specification words them. *)
Definition probe_positions {H : hashlib} (size num_hashes : Z) (item : str)
  : list Z :=
  let digest1 := be_uint (sha256 (encode item)) in
  let digest2 := be_uint (md5 (encode item)) in
  let digest2 := if digest2 =? 0 then 1 else digest2 in
  map (fun i => (digest1 + i * digest2) mod size) (range num_hashes).

(** The positions [_hash_positions] yields, as a total function. *)
Definition positions {H : hashlib} (bf : BloomFilter) (item : str) : list Z :=
  map (fun i => (h1 item + i * h2 item) mod size bf) (range (num_hashes bf)).

(** All probe bits of an item are set. *)
Definition probes_set {H : hashlib} (bf : BloomFilter) (item : str) : Prop :=
  forallb (bit bf) (positions bf item) = true.




End spec1.

Module spec2.
Import task2.

(** The register states the specification speaks of: [p] in range,
    [m = 2 ** p] registers, each holding a rank in [0, 64 - p + 1]. *)
Record wf (h : HyperLogLog) : Prop := mk_wf {
  wf_p : 4 <= p h <= 20;
  wf_m : m h = 2 ^ p h;
  wf_length : length (registers h) = Z.to_nat (m h);
  wf_ranks : Forall (fun r => 0 <= r <= 64 - p h + 1) (registers h)
}.

(** The estimator states a program can reach. *)
Inductive reachable {H : hashlib} : HyperLogLog -> Prop :=
| reachable_init (pv : value) (h : HyperLogLog) :
    __init__ pv = Ok h -> reachable h
| reachable_add (h h' : HyperLogLog) (item : value) :
    reachable h -> add h item = Ok h' -> reachable h'.

(** The number of leading zero bits of [w] read as a [width]-bit word:
    bits are inspected from the most significant one down. *)
Fixpoint leading_zeros (width : nat) (w : Z) : Z :=
  match width with
  | O => 0
  | S k => if Z.testbit w (Z.of_nat k) then 0 else 1 + leading_zeros k w
  end.

(** The sum of [2 ** -r] over the registers, added in list order. *)
Definition harmonic_sum (regs : list Z) : float :=
  fold_left (fun acc r => (acc + Z.ldexp 1 (- r))%float) regs 0%float.

Definition zero_register_count (regs : list Z) : Z :=
  Z.of_nat (count_occ Z.eq_dec regs 0).

(** Strictly positive values: a positive finite number or [+inf]. *)
Definition is_pos (x : spec_float) : bool :=
  match x with
  | S754_finite false _ _ | S754_infinity false => true
  | _ => false
  end.

(** Values that compare [>= 0]: zero of either sign or a positive one. *)
Definition is_nonneg (x : spec_float) : bool :=
  match x with
  | S754_zero _ => true
  | _ => is_pos x
  end.

End spec2.

(** Sample states, for the runs on concrete inputs. *)
Module samples.
Import task1 task2.

(** [BloomFilter(8, 1)] as constructed: one byte, all bits clear. *)
Definition bloom8 : BloomFilter := mkBloomFilter 8 1 [0].

(** [HyperLogLog(4)] as constructed. *)
Definition hll4 : HyperLogLog :=
  mkHyperLogLog 4 16 (repeat 0 16) 0x1.589374bc6a7fp-1%float.

(** [HyperLogLog(4)] with every register at the largest rank, 61. *)
Definition hll4_full : HyperLogLog :=
  mkHyperLogLog 4 16 (repeat 61 16) 0x1.589374bc6a7fp-1%float.

(** [HyperLogLog(5)] with every register at the largest rank, 60. *)
Definition hll5_full : HyperLogLog :=
  mkHyperLogLog 5 32 (repeat 60 32) 0x1.64dd2f1a9fbe7p-1%float.

(** A stand-in for the logarithm, to run [estimate] on. *)
Definition ln_stub (x : float) : float := (x - 1)%float.

(** A [hashlib] whose 8-byte digest is the low four bits of the first
    input byte, moved to the top of the word, then zeros: the sixteen
    one-character strings [chr(0)] to [chr(15)] hash to the sixteen
    register indices of [HyperLogLog(4)], each with rank 61. *)
Definition nibble_digest (b : list byte) : list byte :=
  byte_of_N (Byte.to_N (nth 0 b x00) * 16) :: repeat x00 7.

Definition nibble_hashlib : hashlib :=
  {| sha256 := pad_digest 32;
     md5 := pad_digest 16;
     blake2b_8 := nibble_digest;
     sha256_digest_size := pad_digest_length 32;
     md5_digest_size := pad_digest_length 16;
     blake2b_8_digest_size := fun _ => eq_refl |}.

Definition sixteen_items : list value :=
  map (fun n => VStr [N.of_nat n]) (seq 0 16).

End samples.

(** Predicates for the properties of the whole filter, the uniqueness
    check and the stream counters. *)
Module spec3.
Import task1 task2.

(** The answer of [contains] on a well-formed filter. *)
Definition present {H : hashlib} (bf : BloomFilter) (item : str) : bool :=
  forallb (spec1.bit bf) (spec1.positions bf item).




(** The register an item selects and the rank it carries, for an
    estimator of precision [q]. *)
Definition index_of {H : hashlib} (q : Z) (item : str) : Z :=
  from_bytes_big (blake2b_8 (encode item)) / 2 ^ (64 - q).

Definition rank_of {H : hashlib} (q : Z) (item : str) : Z :=
  spec2.leading_zeros (Z.to_nat (64 - q))
    (from_bytes_big (blake2b_8 (encode item)) mod 2 ^ (64 - q)) + 1.

(** The largest of [a] and the members of [l]. *)
Definition max_of (a : Z) (l : list Z) : Z := fold_left Z.max l a.

End spec3.

(* ================================================================== *)
(** * Facts about the runtime model *)
(* ================================================================== *)

Module PyFacts.

Lemma bind_ok {A B : Type} (c : result A) (k : A -> result B) (b : B) :
  bind c k = Ok b -> exists a, c = Ok a /\ k a = Ok b.
Proof.
  destruct c as [a|e]; simpl; intros E; [eauto | discriminate].
Qed.

Lemma Ok_inj {A : Type} (a b : A) : Ok a = Ok b -> a = b.
Proof. congruence. Qed.

Lemma mapM_total {A B : Type} (f : A -> result B) (g : A -> B) (xs : list A) :
  (forall x, In x xs -> f x = Ok (g x)) -> mapM f xs = Ok (map g xs).
Proof.
  induction xs as [|x xs IH]; simpl; intros Hf; [reflexivity|].
  rewrite (Hf x) by auto. simpl.
  rewrite IH by auto. reflexivity.
Qed.


Lemma foldM_fixed {A S : Type} (f : S -> A -> result S) (xs : list A) (s : S) :
  (forall x, In x xs -> f s x = Ok s) -> foldM f xs s = Ok s.
Proof.
  induction xs as [|x xs IH]; simpl; intros Hf; [reflexivity|].
  rewrite (Hf x) by auto. simpl. auto.
Qed.

Lemma in_range (n i : Z) : In i (range n) <-> 0 <= i < n.
Proof.
  unfold range. rewrite in_map_iff. split.
  - intros (k & <- & Hk). apply in_seq in Hk. lia.
  - intros Hi. exists (Z.to_nat i). split; [lia|]. apply in_seq. lia.
Qed.

Lemma length_range (n : Z) : length (range n) = Z.to_nat n.
Proof. unfold range. now rewrite length_map, length_seq. Qed.

Lemma norm_index_ok {A : Type} (l : list A) (i : Z) :
  0 <= i < Z.of_nat (length l) -> norm_index l i = Ok (Z.to_nat i).
Proof.
  intros Hi. unfold norm_index.
  destruct (Z.ltb_spec i 0); [lia|].
  destruct (Z.ltb_spec i 0); [lia|].
  destruct (Z.leb_spec (Z.of_nat (length l)) i); [lia|]. reflexivity.
Qed.

Lemma getitem_ok {A : Type} (l : list A) (i : Z) (d : A) :
  0 <= i < Z.of_nat (length l) -> getitem l i = Ok (nth (Z.to_nat i) l d).
Proof.
  intros Hi. unfold getitem. rewrite norm_index_ok by assumption. simpl.
  destruct (nth_error l (Z.to_nat i)) as [a|] eqn:E.
  - now rewrite (nth_error_nth _ _ d E).
  - apply nth_error_None in E. lia.
Qed.

Lemma length_update {A : Type} (l : list A) (n : nat) (a : A) :
  length (update l n a) = length l.
Proof.
  revert n; induction l as [|x l IH]; intros [|n]; simpl; auto.
Qed.

Lemma nth_update {A : Type} (l : list A) (n k : nat) (a d : A) :
  (n < length l)%nat ->
  nth k (update l n a) d = if Nat.eqb k n then a else nth k l d.
Proof.
  revert n k; induction l as [|x l IH]; intros n k Hn; simpl in Hn; [lia|].
  destruct n as [|n], k as [|k]; simpl; auto.
  apply IH. lia.
Qed.

Lemma update_same {A : Type} (l : list A) (n : nat) (d : A) :
  update l n (nth n l d) = l.
Proof.
  revert n; induction l as [|x l IH]; intros [|n]; simpl; auto.
  now rewrite IH.
Qed.

Lemma Forall_update {A : Type} (P : A -> Prop) (l : list A) (n : nat) (a : A) :
  Forall P l -> P a -> Forall P (update l n a).
Proof.
  intros Hl Ha. revert n.
  induction Hl as [|x l Hx Hl IH]; intros [|n]; simpl; auto.
Qed.

Lemma land_1 (a : Z) : Z.land a 1 = Z.b2z (Z.testbit a 0).
Proof.
  change 1 with (Z.ones 1). rewrite Z.land_ones by lia.
  now rewrite Z.bit0_mod.
Qed.

Lemma testbit_set (a b c : Z) :
  0 <= b -> 0 <= c ->
  Z.testbit (Z.lor a (Z.shiftl 1 b)) c = Z.testbit a c || (c =? b).
Proof.
  intros Hb Hc. rewrite Z.lor_spec, Z.shiftl_spec by assumption.
  f_equal. destruct (Z.eqb_spec c b) as [->|Hne].
  - now rewrite Z.sub_diag.
  - destruct (Z.ltb_spec c b).
    + now rewrite Z.testbit_neg_r by lia.
    + change 1 with (Z.pow 2 0). apply Z.pow2_bits_false. lia.
Qed.

Lemma lor_set_noop (a b : Z) :
  0 <= b -> Z.testbit a b = true -> Z.lor a (Z.shiftl 1 b) = a.
Proof.
  intros Hb Ha. apply Z.bits_inj'. intros c Hc.
  rewrite testbit_set by assumption.
  destruct (Z.eqb_spec c b) as [->|_]; [now rewrite Ha | apply orb_false_r].
Qed.

Lemma lor_set_byte (a b : Z) :
  0 <= a < 256 -> 0 <= b < 8 -> 0 <= Z.lor a (Z.shiftl 1 b) < 256.
Proof.
  intros Ha Hb.
  assert (Hm : 0 < Z.shiftl 1 b < 256).
  { rewrite Z.shiftl_1_l.
    split; [apply Z.pow_pos_nonneg; lia|].
    change 256 with (2 ^ 8). apply Z.pow_lt_mono_r; lia. }
  assert (Hnn : 0 <= Z.lor a (Z.shiftl 1 b)) by (apply Z.lor_nonneg; lia).
  split; [exact Hnn|].
  assert (Hpos : 0 < Z.lor a (Z.shiftl 1 b)).
  { destruct (Z.eq_dec (Z.lor a (Z.shiftl 1 b)) 0) as [E|]; [|lia].
    apply Z.lor_eq_0_iff in E. lia. }
  change 256 with (2 ^ 8). apply Z.log2_lt_pow2; [exact Hpos|].
  rewrite Z.log2_lor by lia.
  apply Z.max_lub_lt.
  - destruct (Z.eq_dec a 0) as [->|]; [simpl; lia|].
    apply Z.log2_lt_pow2; [lia|]. change (2 ^ 8) with 256. lia.
  - apply Z.log2_lt_pow2; [lia|]. change (2 ^ 8) with 256. lia.
Qed.

Lemma from_bytes_big_acc (d : list byte) (acc : Z) :
  fold_left (fun acc b => acc * 256 + Z.of_N (Byte.to_N b)) d acc
  = acc * 256 ^ Z.of_nat (length d) + spec1.be_uint d.
Proof.
  revert acc; induction d as [|b d IH]; intros acc.
  - simpl. lia.
  - cbn [fold_left length spec1.be_uint]. rewrite IH.
    rewrite Nat2Z.inj_succ, Z.pow_succ_r by lia. ring.
Qed.

Lemma be_uint_range (d : list byte) :
  0 <= spec1.be_uint d < 256 ^ Z.of_nat (length d).
Proof.
  induction d as [|b d IH].
  - simpl. lia.
  - cbn [length spec1.be_uint].
    rewrite Nat2Z.inj_succ, Z.pow_succ_r by lia.
    pose proof (Byte.to_N_bounded b) as Hb.
    assert (0 <= Z.of_N (Byte.to_N b) <= 255) by lia.
    nia.
Qed.

End PyFacts.

(* ================================================================== *)
(** * The Bloom filter *)
(* ================================================================== *)

Module task1_facts.
Import task1 spec1 PyFacts.

Section Facts.
Context {H : hashlib}.

Lemma init_wf (sz k : value) (bf : BloomFilter) :
  __init__ sz k = Ok bf -> wf bf.
Proof.
  unfold __init__.
  destruct (as_int sz) as [n|]; [|destruct (as_int k); discriminate].
  destruct (as_int k) as [j|]; [|discriminate].
  destruct (Z.leb_spec n 0); [discriminate|].
  destruct (Z.leb_spec j 0); [discriminate|].
  intros [= <-]. constructor; simpl; try lia.
  - apply repeat_length.
  - apply Forall_forall. intros b Hb. apply repeat_spec in Hb. lia.
Qed.

Lemma byte_index (bf : BloomFilter) (idx : Z) :
  wf bf -> 0 <= idx < size bf ->
  0 <= idx / 8 < Z.of_nat (length (_bits bf)) /\ 0 <= idx mod 8 < 8.
Proof.
  intros Hwf Hidx. rewrite (wf_length _ Hwf).
  pose proof (Z.div_mod idx 8 ltac:(lia)).
  pose proof (Z.mod_pos_bound idx 8 ltac:(lia)).
  pose proof (Z.div_mod (size bf + 7) 8 ltac:(lia)).
  pose proof (Z.mod_pos_bound (size bf + 7) 8 ltac:(lia)).
  lia.
Qed.

Lemma _get_bit_spec (bf : BloomFilter) (idx : Z) :
  wf bf -> 0 <= idx < size bf ->
  _get_bit bf idx = Ok (Z.b2z (bit bf idx)).
Proof.
  intros Hwf Hidx. destruct (byte_index bf idx Hwf Hidx) as [Hbyte Hbit].
  unfold _get_bit, bit.
  rewrite (getitem_ok _ _ 0 Hbyte). simpl.
  unfold py_rshift. destruct (Z.ltb_spec (idx mod 8) 0); [lia|]. simpl.
  rewrite land_1, Z.shiftr_spec by lia. reflexivity.
Qed.

Lemma _set_bit_spec (bf : BloomFilter) (idx : Z) :
  wf bf -> 0 <= idx < size bf ->
  exists bf',
    _set_bit bf idx = Ok bf' /\ wf bf' /\
    size bf' = size bf /\ num_hashes bf' = num_hashes bf /\
    forall j, 0 <= j -> bit bf' j = bit bf j || (j =? idx).
Proof.
  intros Hwf Hidx. destruct (byte_index bf idx Hwf Hidx) as [Hbyte Hbit].
  set (old := nth (Z.to_nat (idx / 8)) (_bits bf) 0).
  assert (Hold : 0 <= old < 256).
  { pose proof (wf_bytes _ Hwf) as Hall. rewrite Forall_forall in Hall.
    apply Hall. apply nth_In. lia. }
  pose proof (lor_set_byte old (idx mod 8) Hold Hbit) as Hnew.
  eexists. split.
  - unfold _set_bit. rewrite (getitem_ok _ _ 0 Hbyte). simpl.
    unfold py_lshift. destruct (Z.ltb_spec (idx mod 8) 0); [lia|]. simpl.
    unfold bytearray_setitem. rewrite norm_index_ok by assumption. simpl.
    fold old.
    destruct (Z.ltb_spec (Z.lor old (Z.shiftl 1 (idx mod 8))) 0); [lia|].
    destruct (Z.leb_spec 256 (Z.lor old (Z.shiftl 1 (idx mod 8)))); [lia|].
    reflexivity.
  - split; [|split; [reflexivity|split; [reflexivity|]]].
    + destruct Hwf as [H1 H2 H3 H4]. constructor; simpl; auto.
      * now rewrite length_update.
      * apply Forall_update; assumption.
    + intros j Hj. unfold bit. simpl.
      rewrite nth_update by lia.
      destruct (Nat.eqb_spec (Z.to_nat (j / 8)) (Z.to_nat (idx / 8))) as [E|E].
      * assert (Ediv : j / 8 = idx / 8).
        { pose proof (Z.div_pos j 8 ltac:(lia) ltac:(lia)). lia. }
        rewrite testbit_set by (try apply Z.mod_pos_bound; lia).
        unfold old. rewrite Ediv. f_equal.
        pose proof (Z.div_mod j 8 ltac:(lia)).
        pose proof (Z.div_mod idx 8 ltac:(lia)).
        destruct (Z.eqb_spec (j mod 8) (idx mod 8));
          destruct (Z.eqb_spec j idx); try reflexivity; lia.
      * destruct (Z.eqb_spec j idx) as [->|]; [congruence|].
        now rewrite orb_false_r.
Qed.

Lemma _set_bit_noop (bf : BloomFilter) (idx : Z) :
  wf bf -> 0 <= idx < size bf -> bit bf idx = true ->
  _set_bit bf idx = Ok bf.
Proof.
  intros Hwf Hidx Hset. destruct (byte_index bf idx Hwf Hidx) as [Hbyte Hbit].
  unfold bit in Hset.
  assert (Hold : 0 <= nth (Z.to_nat (idx / 8)) (_bits bf) 0 < 256).
  { pose proof (wf_bytes _ Hwf) as Hall. rewrite Forall_forall in Hall.
    apply Hall. apply nth_In. lia. }
  unfold _set_bit. rewrite (getitem_ok _ _ 0 Hbyte). simpl.
  unfold py_lshift. destruct (Z.ltb_spec (idx mod 8) 0); [lia|]. simpl.
  unfold bytearray_setitem. rewrite norm_index_ok by assumption. simpl.
  rewrite lor_set_noop by (assumption || lia).
  destruct (Z.ltb_spec (nth (Z.to_nat (idx / 8)) (_bits bf) 0) 0); [lia|].
  destruct (Z.leb_spec 256 (nth (Z.to_nat (idx / 8)) (_bits bf) 0)); [lia|].
  simpl. rewrite update_same. now destruct bf.
Qed.

Lemma set_bits_spec (ps : list Z) (bf : BloomFilter) :
  wf bf -> Forall (fun pos => 0 <= pos < size bf) ps ->
  exists bf',
    foldM _set_bit ps bf = Ok bf' /\ wf bf' /\
    size bf' = size bf /\ num_hashes bf' = num_hashes bf /\
    forall j, 0 <= j -> bit bf' j = bit bf j || existsb (Z.eqb j) ps.
Proof.
  revert bf. induction ps as [|pos ps IH]; intros bf Hwf Hps.
  - exists bf. simpl.
    split; [reflexivity|]. split; [assumption|].
    split; [reflexivity|]. split; [reflexivity|].
    intros j _. now rewrite orb_false_r.
  - inversion Hps as [|? ? Hpos Hrest]; subst.
    destruct (_set_bit_spec bf pos Hwf Hpos)
      as (bf1 & E1 & Hwf1 & Hsz1 & Hk1 & Hbit1).
    destruct (IH bf1 Hwf1) as (bf2 & E2 & Hwf2 & Hsz2 & Hk2 & Hbit2).
    { now rewrite Hsz1. }
    exists bf2. simpl. rewrite E1. simpl.
    split; [assumption|]. split; [assumption|].
    split; [congruence|]. split; [congruence|].
    intros j Hj. rewrite Hbit2, Hbit1 by assumption.
    now rewrite orb_assoc.
Qed.

Lemma all_bits_spec (ps : list Z) (bf : BloomFilter) :
  wf bf -> Forall (fun pos => 0 <= pos < size bf) ps ->
  all_bits bf ps = Ok (forallb (bit bf) ps).
Proof.
  intros Hwf. induction 1 as [|pos ps Hpos _ IH]; simpl; [reflexivity|].
  rewrite _get_bit_spec by assumption. simpl.
  destruct (bit bf pos); simpl; auto.
Qed.

Lemma _hash_positions_total (bf : BloomFilter) (item : str) :
  size bf <> 0 -> _hash_positions bf item = Ok (positions bf item).
Proof.
  intros Hsz. unfold _hash_positions, positions.
  apply mapM_total. intros i _. unfold py_mod.
  destruct (Z.eqb_spec (size bf) 0); [contradiction|reflexivity].
Qed.

Lemma positions_in_range (bf : BloomFilter) (item : str) :
  0 < size bf -> Forall (fun pos => 0 <= pos < size bf) (positions bf item).
Proof.
  intros Hsz. apply Forall_forall. intros pos Hin.
  unfold positions in Hin. apply in_map_iff in Hin as (i & <- & _).
  apply Z.mod_pos_bound. assumption.
Qed.

Lemma add_spec (bf : BloomFilter) (item : str) :
  wf bf ->
  exists bf',
    add bf (VStr item) = Ok bf' /\ wf bf' /\
    size bf' = size bf /\ num_hashes bf' = num_hashes bf /\
    forall j, 0 <= j ->
      bit bf' j = bit bf j || existsb (Z.eqb j) (positions bf item).
Proof.
  intros Hwf. pose proof (wf_size _ Hwf) as Hsz.
  unfold add. rewrite _hash_positions_total by lia. simpl.
  apply set_bits_spec; [assumption|]. now apply positions_in_range.
Qed.

Lemma contains_spec (bf : BloomFilter) (item : str) :
  wf bf ->
  contains bf (VStr item) = Ok (forallb (bit bf) (positions bf item)).
Proof.
  intros Hwf. pose proof (wf_size _ Hwf) as Hsz.
  unfold contains. rewrite _hash_positions_total by lia. simpl.
  apply all_bits_spec; [assumption|]. now apply positions_in_range.
Qed.

Lemma positions_same_shape (bf bf' : BloomFilter) (item : str) :
  size bf' = size bf -> num_hashes bf' = num_hashes bf ->
  positions bf' item = positions bf item.
Proof. unfold positions. now intros -> ->. Qed.

Lemma add_wf (bf bf' : BloomFilter) (item : value) :
  wf bf -> add bf item = Ok bf' ->
  wf bf' /\ size bf' = size bf /\ num_hashes bf' = num_hashes bf /\
  forall j, bit bf j = true -> 0 <= j -> bit bf' j = true.
Proof.
  intros Hwf E. destruct item as [| | |s]; try discriminate.
  destruct (add_spec bf s Hwf) as (bf1 & E1 & Hwf1 & Hsz & Hk & Hbit).
  rewrite E1 in E. injection E as <-.
  split; [assumption|]. split; [assumption|]. split; [assumption|].
  intros j Hj Hnn. rewrite Hbit by assumption. now rewrite Hj.
Qed.

Lemma reachable_wf (bf : BloomFilter) : reachable bf -> wf bf.
Proof.
  induction 1 as [sz k bf E | bf bf' item _ IH E].
  - exact (init_wf _ _ _ E).
  - exact (proj1 (add_wf _ _ _ IH E)).
Qed.

Lemma probes_set_after_add (bf bf' : BloomFilter) (item : str) :
  wf bf -> add bf (VStr item) = Ok bf' -> probes_set bf' item.
Proof.
  intros Hwf E.
  destruct (add_spec bf item Hwf) as (bf1 & E1 & _ & Hsz & Hk & Hbit).
  rewrite E1 in E. injection E as <-.
  unfold probes_set. rewrite (positions_same_shape _ _ _ Hsz Hk).
  apply forallb_forall. intros pos Hin.
  pose proof (positions_in_range bf item (wf_size _ Hwf)) as Hrange.
  rewrite Forall_forall in Hrange. specialize (Hrange pos Hin).
  rewrite Hbit by lia.
  apply orb_true_iff. right. apply existsb_exists.
  exists pos. split; [assumption | apply Z.eqb_refl].
Qed.

Lemma probes_set_mono (bf bf' : BloomFilter) (item : str) (other : value) :
  wf bf -> add bf other = Ok bf' -> probes_set bf item -> probes_set bf' item.
Proof.
  intros Hwf E Hset.
  destruct (add_wf bf bf' other Hwf E) as (_ & Hsz & Hk & Hmono).
  unfold probes_set in *. rewrite (positions_same_shape _ _ _ Hsz Hk).
  rewrite forallb_forall in *. intros pos Hin.
  pose proof (positions_in_range bf item (wf_size _ Hwf)) as Hrange.
  rewrite Forall_forall in Hrange. specialize (Hrange pos Hin).
  apply Hmono; [auto | lia].
Qed.

Lemma probes_set_later (later : list value) (bf bf' : BloomFilter) (item : str) :
  wf bf -> foldM add later bf = Ok bf' -> probes_set bf item ->
  wf bf' /\ probes_set bf' item.
Proof.
  revert bf. induction later as [|v later IH]; simpl; intros bf Hwf E Hset.
  - injection E as <-. auto.
  - apply bind_ok in E as (bf1 & E1 & E2).
    apply (IH bf1); [exact (proj1 (add_wf _ _ _ Hwf E1)) | exact E2 |].
    eapply probes_set_mono; eassumption.
Qed.

Lemma add_fixed (bf : BloomFilter) (item : str) :
  wf bf -> probes_set bf item -> add bf (VStr item) = Ok bf.
Proof.
  intros Hwf Hset. pose proof (wf_size _ Hwf) as Hsz.
  unfold add. rewrite _hash_positions_total by lia. simpl.
  apply foldM_fixed. intros pos Hin.
  pose proof (positions_in_range bf item Hsz) as Hrange.
  rewrite Forall_forall in Hrange.
  apply _set_bit_noop; auto.
  unfold probes_set in Hset. rewrite forallb_forall in Hset. auto.
Qed.

Lemma h1_be (item : str) : h1 item = be_uint (sha256 (encode item)).
Proof.
  unfold h1, from_bytes_big. rewrite from_bytes_big_acc. lia.
Qed.

Lemma md5_be (item : str) :
  from_bytes_big (md5 (encode item)) = be_uint (md5 (encode item)).
Proof.
  unfold from_bytes_big. rewrite from_bytes_big_acc. lia.
Qed.

(** C1. No false negatives: on every filter state reachable by
    insertions, [add(item)] returns and [contains(item)] is then [True];
    it stays [True] after any further insertions. *)
Theorem add_then_contains (bf : BloomFilter) (item : str) :
  reachable bf ->
  exists bf',
    add bf (VStr item) = Ok bf' /\
    contains bf' (VStr item) = Ok true /\
    forall (later : list value) (bf'' : BloomFilter),
      foldM add later bf' = Ok bf'' -> contains bf'' (VStr item) = Ok true.
Proof.
  intros Hreach. pose proof (reachable_wf bf Hreach) as Hwf.
  destruct (add_spec bf item Hwf) as (bf' & E & Hwf' & _).
  pose proof (probes_set_after_add bf bf' item Hwf E) as Hset.
  exists bf'. split; [exact E|]. split.
  - rewrite contains_spec by assumption. now rewrite Hset.
  - intros later bf'' Elater.
    destruct (probes_set_later later bf' bf'' item Hwf' Elater Hset)
      as [Hwf'' Hset''].
    rewrite contains_spec by assumption. now rewrite Hset''.
Qed.


(** C4. The positions [_hash_positions] yields are
    [(digest1 + i * digest2) mod size] for [i] in [0, num_hashes), with
    [digest1] the 256-bit and [digest2] the 128-bit big-endian value of
    the two digests of the encoded item, [digest2] replaced by 1 when it
    is zero; there are [num_hashes] of them, each in [0, size); and they
    depend on the item, [size] and [num_hashes] only, not on the bits. *)
Theorem hash_positions_formula (bf : BloomFilter) (item : str) :
  0 < size bf ->
  _hash_positions bf item
    = Ok (probe_positions (size bf) (num_hashes bf) item) /\
  0 <= be_uint (sha256 (encode item)) < 2 ^ 256 /\
  0 <= be_uint (md5 (encode item)) < 2 ^ 128 /\
  length (probe_positions (size bf) (num_hashes bf) item)
    = Z.to_nat (num_hashes bf) /\
  Forall (fun pos => 0 <= pos < size bf)
         (probe_positions (size bf) (num_hashes bf) item) /\
  forall bf' : BloomFilter,
    size bf' = size bf -> num_hashes bf' = num_hashes bf ->
    _hash_positions bf' item = _hash_positions bf item.
Proof.
  intros Hsz.
  assert (Epos : positions bf item
                 = probe_positions (size bf) (num_hashes bf) item).
  { unfold positions, probe_positions. cbv zeta.
    apply map_ext. intros i. unfold h2. now rewrite h1_be, md5_be. }
  split; [rewrite <- Epos; apply _hash_positions_total; lia|].
  split.
  { pose proof (be_uint_range (sha256 (encode item))) as Hr.
    rewrite sha256_digest_size in Hr. exact Hr. }
  split.
  { pose proof (be_uint_range (md5 (encode item))) as Hr.
    rewrite md5_digest_size in Hr. exact Hr. }
  split.
  { unfold probe_positions. cbv zeta. now rewrite length_map, length_range. }
  split.
  { rewrite <- Epos. now apply positions_in_range. }
  intros bf' Esz Ek.
  rewrite !_hash_positions_total by lia.
  now rewrite (positions_same_shape _ _ _ Esz Ek).
Qed.

(** C9. Insertion is idempotent: on every well-formed filter, inserting
    an item a second time returns the very bit state the first insertion
    produced, so every query answers the same after it. *)
Theorem add_idempotent (bf : BloomFilter) (item : str) :
  wf bf ->
  exists bf1 bf2,
    add bf (VStr item) = Ok bf1 /\
    add bf1 (VStr item) = Ok bf2 /\
    _bits bf2 = _bits bf1 /\
    forall q : value, contains bf2 q = contains bf1 q.
Proof.
  intros Hwf.
  destruct (add_spec bf item Hwf) as (bf1 & E & Hwf1 & _).
  pose proof (probes_set_after_add bf bf1 item Hwf E) as Hset.
  pose proof (add_fixed bf1 item Hwf1 Hset) as Efix.
  exists bf1, bf1. auto.
Qed.

End Facts.
End task1_facts.

(* ================================================================== *)
(** * The uniqueness check *)
(* ================================================================== *)

Module classifier_facts.
Import task1 spec1 PyFacts task1_facts.

Lemma str_eqb_eq (a b : str) : str_eqb a b = true <-> a = b.
Proof.
  unfold str_eqb. destruct (list_eq_dec N.eq_dec a b); split; congruence.
Qed.




Section Facts.
Context {H : hashlib}.












End Facts.
End classifier_facts.

(* ================================================================== *)
(** * Facts about binary64 arithmetic *)
(* ================================================================== *)

Module FloatFacts.
Import spec2.

Lemma digits2_size (q : positive) : digits2_pos q = Pos.size q.
Proof. induction q as [q IH|q IH|]; cbn; now rewrite ?IH. Qed.

Lemma digits_lower (q : positive) :
  2 ^ (Z.pos (digits2_pos q) - 1) <= Z.pos q.
Proof.
  rewrite digits2_size.
  pose proof (Pos.size_le q) as Hle.
  apply Pos2Z.pos_le_pos in Hle. rewrite Pos2Z.inj_pow in Hle.
  change (Z.pos q~0) with (2 * Z.pos q) in Hle.
  replace (Z.pos (Pos.size q)) with (Z.succ (Z.pos (Pos.size q) - 1)) in Hle
    by lia.
  rewrite Z.pow_succ_r in Hle by lia. lia.
Qed.

Lemma digits_upper (q : positive) : Z.pos q < 2 ^ Z.pos (digits2_pos q).
Proof.
  rewrite digits2_size.
  pose proof (Pos.size_gt q) as Hlt.
  apply Pos2Z.pos_lt_pos in Hlt. now rewrite Pos2Z.inj_pow in Hlt.
Qed.

Lemma shr_1_m (mrs : shr_record) :
  0 <= shr_m mrs -> shr_m (shr_1 mrs) = shr_m mrs / 2.
Proof.
  destruct mrs as [m r s]. cbn [shr_m]. intros Hm.
  destruct m as [|q|q]; [reflexivity| |lia].
  destruct q as [q|q|]; cbn [shr_1 shr_m].
  - change (Z.pos q~1) with (2 * Z.pos q + 1). apply Z.div_unique with 1; lia.
  - change (Z.pos q~0) with (2 * Z.pos q). apply Z.div_unique with 0; lia.
  - reflexivity.
Qed.

Lemma iter_shr_1_m (n : positive) (mrs : shr_record) :
  0 <= shr_m mrs ->
  shr_m (iter_pos shr_1 n mrs) = shr_m mrs / 2 ^ Z.pos n.
Proof.
  revert mrs. induction n as [n IH|n IH|]; intros mrs Hm; cbn [iter_pos].
  - assert (H1 : 0 <= shr_m (shr_1 mrs)).
    { rewrite shr_1_m by assumption. apply Z.div_pos; lia. }
    assert (H2 : 0 <= shr_m (iter_pos shr_1 n (shr_1 mrs))).
    { rewrite IH by assumption. apply Z.div_pos; [assumption|].
      apply Z.pow_pos_nonneg; lia. }
    rewrite IH, IH, shr_1_m by assumption.
    assert (Hp : 0 < 2 ^ Z.pos n) by (apply Z.pow_pos_nonneg; lia).
    rewrite !Z.div_div by lia. f_equal.
    change (Z.pos n~1) with (2 * Z.pos n + 1).
    replace (2 * Z.pos n + 1) with (Z.succ (Z.pos n + Z.pos n)) by lia.
    rewrite Z.pow_succ_r, Z.pow_add_r by lia. lia.
  - assert (H2 : 0 <= shr_m (iter_pos shr_1 n mrs)).
    { rewrite IH by assumption. apply Z.div_pos; [assumption|].
      apply Z.pow_pos_nonneg; lia. }
    rewrite IH, IH by assumption.
    assert (Hp : 0 < 2 ^ Z.pos n) by (apply Z.pow_pos_nonneg; lia).
    rewrite Z.div_div by lia. f_equal.
    change (Z.pos n~0) with (2 * Z.pos n).
    replace (2 * Z.pos n) with (Z.pos n + Z.pos n) by lia.
    now rewrite Z.pow_add_r by lia.
  - now apply shr_1_m.
Qed.

Lemma shr_record_of_loc_m (m : Z) (l : location) :
  shr_m (shr_record_of_loc m l) = m.
Proof. destruct l as [|[| |]]; reflexivity. Qed.

Lemma fexp_emin (e : Z) : emin <= fexp prec emax e.
Proof. unfold fexp, emin. lia. Qed.

(** Shifting a positive mantissa to its canonical exponent leaves it
    positive, provided the exponent is not below [emin]. *)
Lemma shr_fexp_pos (m e : Z) (l : location) :
  0 < m -> emin <= e ->
  0 < shr_m (fst (shr_fexp prec emax m e l)) /\
  emin <= snd (shr_fexp prec emax m e l).
Proof.
  intros Hm He. unfold shr_fexp, shr.
  destruct m as [|q|q]; try lia. cbn [Zdigits2].
  pose proof (digits_lower q) as Hlow.
  set (d := Z.pos (digits2_pos q)) in *.
  destruct (fexp prec emax (d + e) - e) as [|n|n] eqn:En; cbn [fst snd].
  - rewrite shr_record_of_loc_m. lia.
  - rewrite iter_shr_1_m by (rewrite shr_record_of_loc_m; lia).
    rewrite shr_record_of_loc_m.
    assert (Hn : Z.pos n = d - prec).
    { unfold fexp in En. unfold emin, prec, emax in *. lia. }
    split; [|lia].
    apply Z.div_str_pos. split; [apply Z.pow_pos_nonneg; lia|].
    apply Z.le_trans with (2 ^ (d - 1)); [|assumption].
    apply Z.pow_le_mono_r; [lia|]. rewrite Hn. unfold prec. lia.
  - rewrite shr_record_of_loc_m. lia.
Qed.

Lemma round_nearest_even_pos (m : Z) (l : location) :
  0 < m -> 0 < round_nearest_even m l.
Proof.
  intros Hm. destruct l as [|[| |]]; cbn; try lia.
  destruct (Z.even m); lia.
Qed.

Lemma binary_round_aux_pos (m e : Z) (l : location) :
  0 < m -> emin <= e ->
  is_pos (binary_round_aux prec emax false m e l) = true.
Proof.
  intros Hm He. unfold binary_round_aux.
  destruct (shr_fexp_pos m e l Hm He) as [H1 H1e].
  destruct (shr_fexp prec emax m e l) as [mrs' e']. cbn [fst snd] in *.
  pose proof (round_nearest_even_pos (shr_m mrs') (loc_of_shr_record mrs') H1)
    as Hr.
  destruct (shr_fexp_pos _ e' loc_Exact Hr H1e) as [H2 _].
  destruct (shr_fexp prec emax _ e' loc_Exact) as [mrs'' e''].
  cbn [fst snd] in *.
  destruct (shr_m mrs'') as [|q|q]; try lia.
  now destruct (e'' <=? emax - prec).
Qed.

Lemma shl_align_exp (mx : positive) (ex ex' : Z) :
  emin <= ex -> emin <= ex' -> emin <= snd (shl_align mx ex ex').
Proof.
  intros H1 H2. unfold shl_align. now destruct (ex' - ex).
Qed.

Lemma binary_round_pos (mx : positive) (ex : Z) :
  emin <= ex -> is_pos (binary_round prec emax false mx ex) = true.
Proof.
  intros He. unfold binary_round.
  pose proof (shl_align_exp mx ex (fexp prec emax (Z.pos (digits2_pos mx) + ex))
                He (fexp_emin _)) as Hez.
  destruct (shl_align mx ex _) as [mz ez]. cbn [snd] in Hez.
  apply binary_round_aux_pos; [lia | assumption].
Qed.

Lemma valid_exp (s : bool) (mx : positive) (ex : Z) :
  valid_binary (S754_finite s mx ex) = true -> emin <= ex.
Proof.
  cbn [valid_binary]. unfold bounded, canonical_mantissa.
  rewrite andb_true_iff, Z.eqb_eq. intros [<- _]. apply fexp_emin.
Qed.

Lemma SFadd_pos (x y : spec_float) :
  valid_binary x = true -> valid_binary y = true ->
  is_nonneg x = true -> is_pos y = true ->
  is_pos (SF64add x y) = true.
Proof.
  intros Vx Vy Hx Hy. unfold SF64add, SFadd.
  destruct x as [sx|sx| |sx mx ex]; destruct y as [sy|sy| |sy my ey];
    try discriminate; try (destruct sx; try discriminate);
    try (destruct sy; try discriminate); try reflexivity.
  cbn [cond_Zopp].
  apply valid_exp in Vx. apply valid_exp in Vy.
  set (ez := Z.min ex ey).
  assert (Hez : emin <= ez) by (unfold ez; lia).
  cbn [Z.add binary_normalize].
  now apply binary_round_pos.
Qed.

Lemma ltb_0_pos (x : float) : (0 <? x)%float = is_pos (Prim2SF x).
Proof.
  rewrite ltb_spec. change (Prim2SF 0) with (S754_zero false).
  destruct (Prim2SF x) as [s|[|]| |[|] mx ex]; reflexivity.
Qed.

Lemma leb_0_nonneg (x : float) : (0 <=? x)%float = is_nonneg (Prim2SF x).
Proof.
  rewrite leb_spec. change (Prim2SF 0) with (S754_zero false).
  destruct (Prim2SF x) as [s|[|]| |[|] mx ex]; reflexivity.
Qed.

Lemma leb_x_0_pos (x : float) :
  is_pos (Prim2SF x) = true -> (x <=? 0)%float = false.
Proof.
  rewrite leb_spec. change (Prim2SF 0) with (S754_zero false).
  destruct (Prim2SF x) as [s|[|]| |[|] mx ex]; (discriminate || reflexivity).
Qed.

Lemma eqb_0_pos (x : float) :
  is_pos (Prim2SF x) = true -> (x =? 0)%float = false.
Proof.
  rewrite eqb_spec. change (Prim2SF 0) with (S754_zero false).
  destruct (Prim2SF x) as [s|[|]| |[|] mx ex]; (discriminate || reflexivity).
Qed.

(** The sum of a non-negative and a positive float is positive. *)
Lemma add_pos (x y : float) :
  (0 <=? x)%float = true -> (0 <? y)%float = true ->
  (0 <? x + y)%float = true.
Proof.
  rewrite leb_0_nonneg, !ltb_0_pos, add_spec.
  apply SFadd_pos; apply Prim2SF_valid.
Qed.

(** [2.0 ** e] is positive down to the smallest subnormal. *)
Lemma ldexp_1_pos (e : Z) : -1022 <= e -> (0 <? Z.ldexp 1 e)%float = true.
Proof.
  intros He. rewrite ltb_0_pos, Z_ldexp_spec.
  change (Prim2SF 1) with (S754_finite false 4503599627370496 (-52)).
  cbn [SFldexp]. apply binary_round_pos. unfold emin, emax, prec. lia.
Qed.


Lemma digits_iter_xO (q k : positive) :
  digits2_pos (Pos.iter xO q k) = (digits2_pos q + k)%positive.
Proof.
  induction k as [|k IH] using Pos.peano_ind.
  - cbn. now rewrite Pos.add_1_r.
  - rewrite Pos.iter_succ. cbn [digits2_pos]. rewrite IH.
    now rewrite Pos.add_succ_r.
Qed.

Lemma shr_fexp_canonical (m e : Z) :
  fexp prec emax (Zdigits2 m + e) = e ->
  shr_fexp prec emax m e loc_Exact
  = ({| shr_m := m; shr_r := false; shr_s := false |}, e).
Proof.
  intros Hc. unfold shr_fexp. rewrite Hc, Z.sub_diag. reflexivity.
Qed.

Lemma binary_round_aux_canonical (mz : positive) (e : Z) :
  fexp prec emax (Z.pos (digits2_pos mz) + e) = e -> e <= emax - prec ->
  binary_round_aux prec emax false (Z.pos mz) e loc_Exact
  = S754_finite false mz e.
Proof.
  intros Hc He. unfold binary_round_aux.
  rewrite shr_fexp_canonical by exact Hc.
  cbn [shr_m loc_of_shr_record round_nearest_even].
  rewrite shr_fexp_canonical by exact Hc.
  cbn [shr_m]. destruct (Z.leb_spec e (emax - prec)); [reflexivity|lia].
Qed.

(** A positive integer below [2 ** 52] converts exactly: a normal
    float with a full 53-bit mantissa. *)
Lemma binary_normalize_small (z : Z) :
  0 < z < 2 ^ 52 ->
  exists mz ez,
    binary_normalize prec emax z 0 false = S754_finite false mz ez /\
    digits2_pos mz = 53%positive /\ -52 <= ez <= 0.
Proof.
  intros Hz. destruct z as [|q|q]; try lia. cbn [binary_normalize].
  pose proof (digits_lower q) as Hlow.
  set (d := digits2_pos q) in *.
  assert (Hd : Z.pos d <= 52).
  { destruct (Z.le_gt_cases (Z.pos d) 52) as [|Hgt]; [assumption|].
    assert (2 ^ 52 <= 2 ^ (Z.pos d - 1)) by (apply Z.pow_le_mono_r; lia).
    lia. }
  unfold binary_round. fold d.
  assert (Hf : fexp prec emax (Z.pos d + 0) = Z.pos d - 53).
  { unfold fexp, emin, prec, emax. lia. }
  rewrite Hf. unfold shl_align.
  destruct (Z.pos d - 53 - 0) as [|k|k] eqn:Ek; try lia.
  exists (Pos.iter xO q k), (Z.pos d - 53).
  assert (Hdig : digits2_pos (Pos.iter xO q k) = 53%positive).
  { rewrite digits_iter_xO. fold d. lia. }
  split; [|split; [exact Hdig | lia]].
  apply binary_round_aux_canonical.
  - rewrite Hdig. unfold fexp, emin, prec, emax. lia.
  - unfold prec, emax. lia.
Qed.

Lemma SFdiv_pos (mx my : positive) (ex ey : Z) :
  digits2_pos mx = 53%positive -> digits2_pos my = 53%positive ->
  -52 <= ex <= 0 -> -52 <= ey <= 0 ->
  is_pos (SF64div (S754_finite false mx ex) (S754_finite false my ey)) = true.
Proof.
  intros Hdx Hdy Hex Hey. unfold SF64div, SFdiv, SFdiv_core_binary.
  cbn [Zdigits2 xorb]. rewrite Hdx, Hdy.
  assert (He' : Z.min (fexp prec emax (53 + ex - (53 + ey))) (ex - ey)
                = ex - ey - 53).
  { unfold fexp, emin, prec, emax. lia. }
  rewrite He'.
  replace (ex - ey - (ex - ey - 53)) with 53 by lia.
  pose proof (digits_lower mx) as Hlx. rewrite Hdx in Hlx.
  pose proof (digits_upper my) as Huy. rewrite Hdy in Huy.
  assert (Hq : 0 < Z.shiftl (Z.pos mx) 53 / Z.pos my).
  { rewrite Z.shiftl_mul_pow2 by lia.
    apply Z.div_str_pos. split; [lia|].
    change (53 - 1) with 52 in Hlx.
    assert (Hp : 2 ^ 53 = 9007199254740992) by reflexivity.
    assert (Hp' : 2 ^ 52 = 4503599627370496) by reflexivity.
    nia. }
  unfold Z.div in Hq.
  destruct (Z.div_eucl (Z.shiftl (Z.pos mx) 53) (Z.pos my)) as [q r].
  apply binary_round_aux_pos; [exact Hq|].
  unfold emin, prec, emax. lia.
Qed.

Lemma float_of_int_small (z : Z) :
  0 < z < 2 ^ 52 ->
  exists mz ez,
    Prim2SF (float_of_int z) = S754_finite false mz ez /\
    digits2_pos mz = 53%positive /\ -52 <= ez <= 0.
Proof.
  intros Hz. unfold float_of_int.
  destruct (Z.leb_spec 0 z); [|lia].
  destruct (Z.ltb_spec z (2 ^ 63)); [|lia]. cbn [andb].
  rewrite of_uint63_spec, Uint63.of_Z_spec.
  rewrite Z.mod_small by (change Uint63Axioms.wB with (2 ^ 63); lia).
  now apply binary_normalize_small.
Qed.

(** The true quotient of two positive integers below [2 ** 52] is a
    positive float. *)
Lemma int_truediv_pos (a b : Z) :
  0 < a < 2 ^ 52 -> 0 < b < 2 ^ 52 ->
  int_truediv a b = Ok (float_of_int a / float_of_int b)%float /\
  ((float_of_int a / float_of_int b <=? 0)%float = false).
Proof.
  intros Ha Hb. unfold int_truediv.
  destruct (Z.eqb_spec b 0); [lia|]. split; [reflexivity|].
  apply leb_x_0_pos. rewrite div_spec.
  destruct (float_of_int_small a Ha) as (ma & ea & -> & Hda & Hea).
  destruct (float_of_int_small b Hb) as (mb & eb & -> & Hdb & Heb).
  now apply SFdiv_pos.
Qed.

End FloatFacts.

(* ================================================================== *)
(** * HyperLogLog: construction and register update *)
(* ================================================================== *)

Module task2_facts.
Import task2 spec2 PyFacts.

Lemma bit_above (n w : Z) :
  0 <= n -> 0 <= w < 2 ^ (n + 1) -> Z.testbit w n = true <-> 2 ^ n <= w.
Proof.
  intros Hn Hw. rewrite Z.testbit_true by assumption.
  assert (Hpow : 0 < 2 ^ n) by (apply Z.pow_pos_nonneg; lia).
  rewrite Z.add_1_r, Z.pow_succ_r in Hw by assumption.
  destruct (Z.le_gt_cases (2 ^ n) w) as [Hge|Hlt].
  - assert (w / 2 ^ n = 1).
    { pose proof (Z.div_le_lower_bound w (2 ^ n) 1 Hpow ltac:(lia)).
      pose proof (Z.div_lt_upper_bound w (2 ^ n) 2 Hpow ltac:(lia)). lia. }
    split; [auto|]. intros _. now replace (w / 2 ^ n) with 1.
  - rewrite Z.div_small by lia. split; [discriminate | lia].
Qed.

Lemma leading_zeros_range (n : nat) (w : Z) :
  0 <= leading_zeros n w <= Z.of_nat n.
Proof.
  induction n as [|n IH]; cbn [leading_zeros]; [lia|].
  destruct (Z.testbit w (Z.of_nat n)); lia.
Qed.

Lemma _clz_leading_zeros (n : nat) (w : Z) :
  0 <= w < 2 ^ Z.of_nat n -> _clz w (Z.of_nat n) = leading_zeros n w.
Proof.
  induction n as [|n IH]; intros Hw.
  - cbn in Hw. assert (w = 0) by lia. subst w. reflexivity.
  - cbn [leading_zeros]. rewrite Nat2Z.inj_succ in *. unfold Z.succ in *.
    pose proof (bit_above (Z.of_nat n) w ltac:(lia) Hw) as Hbit.
    destruct (Z.testbit w (Z.of_nat n)).
    + assert (Hge : 2 ^ Z.of_nat n <= w) by (apply Hbit; reflexivity).
      assert (Hpow : 0 < 2 ^ Z.of_nat n) by (apply Z.pow_pos_nonneg; lia).
      unfold _clz, bit_length.
      destruct (Z.eqb_spec w 0); [lia|].
      rewrite Z.abs_eq by lia.
      rewrite (Z.log2_unique w (Z.of_nat n)); [lia | lia |].
      split; [assumption|]. now rewrite <- Z.add_1_r.
    + assert (Hlt : w < 2 ^ Z.of_nat n).
      { destruct (Z.le_gt_cases (2 ^ Z.of_nat n) w) as [Hge|]; [|assumption].
        apply Hbit in Hge. discriminate. }
      rewrite <- IH by lia.
      unfold _clz. destruct (Z.eqb_spec w 0); lia.
Qed.

Section Facts.
Context {H : hashlib}.

Lemma hash64_range (s : str) :
  0 <= from_bytes_big (blake2b_8 (encode s)) < 2 ^ 64.
Proof.
  unfold from_bytes_big. rewrite from_bytes_big_acc.
  pose proof (be_uint_range (blake2b_8 (encode s))) as Hr.
  rewrite blake2b_8_digest_size in Hr.
  change (256 ^ Z.of_nat 8) with (2 ^ 64) in Hr. lia.
Qed.

(** The register update, written with the quantities the specification
    names. *)
Lemma hll_add_spec (h : HyperLogLog) (s : str) :
  wf h ->
  let x := from_bytes_big (blake2b_8 (encode s)) in
  let idx := x / 2 ^ (64 - p h) in
  let w := x mod 2 ^ (64 - p h) in
  let rho := leading_zeros (Z.to_nat (64 - p h)) w + 1 in
  let old := nth (Z.to_nat idx) (registers h) 0 in
  0 <= idx < m h /\
  1 <= rho <= 64 - p h + 1 /\
  add h (VStr s)
  = Ok (if old <? rho
        then mkHyperLogLog (p h) (m h)
               (update (registers h) (Z.to_nat idx) rho) (alpha h)
        else h).
Proof.
  intros Hwf x idx w rho old.
  pose proof (wf_p _ Hwf) as Hp. pose proof (wf_m _ Hwf) as Hm.
  pose proof (wf_length _ Hwf) as Hlen.
  pose proof (hash64_range s) as Hx. fold x in Hx.
  assert (Hpow : 0 < 2 ^ (64 - p h)) by (apply Z.pow_pos_nonneg; lia).
  assert (Hidx : 0 <= idx < m h).
  { unfold idx. split; [apply Z.div_pos; lia|].
    apply Z.div_lt_upper_bound; [assumption|].
    rewrite Hm, <- Z.pow_add_r by lia.
    now replace (64 - p h + p h) with 64 by lia. }
  assert (Hw : 0 <= w < 2 ^ Z.of_nat (Z.to_nat (64 - p h))).
  { rewrite Z2Nat.id by lia. apply Z.mod_pos_bound. assumption. }
  assert (Hrho : 1 <= rho <= 64 - p h + 1).
  { pose proof (leading_zeros_range (Z.to_nat (64 - p h)) w). unfold rho. lia. }
  split; [exact Hidx|]. split; [exact Hrho|].
  unfold add, _hash64. cbn [bind]. fold x.
  unfold py_rshift, py_lshift.
  destruct (Z.ltb_spec (64 - p h) 0); [lia|]. cbn [bind].
  rewrite Z.shiftr_div_pow2, Z.shiftl_1_l by lia. fold idx.
  replace (Z.land x (2 ^ (64 - p h) - 1)) with w.
  2:{ unfold w. rewrite <- Z.land_ones by lia.
      now rewrite Z.ones_equiv, <- Z.sub_1_r. }
  replace (_clz w (64 - p h) + 1) with rho.
  2:{ unfold rho. rewrite <- _clz_leading_zeros by assumption.
      now rewrite Z2Nat.id by lia. }
  rewrite (getitem_ok _ _ 0) by lia. cbn [bind]. fold old.
  destruct (old <? rho); [|reflexivity].
  unfold setitem. rewrite norm_index_ok by lia. reflexivity.
Qed.

Lemma wf_intro (q n : Z) (regs : list Z) (a : float) :
  4 <= q <= 20 -> n = 2 ^ q -> length regs = Z.to_nat n ->
  Forall (fun r => 0 <= r <= 64 - q + 1) regs ->
  wf (mkHyperLogLog q n regs a).
Proof. intros Hq Hn Hlen Hranks. constructor; assumption. Qed.

Lemma hll_add_wf (h h' : HyperLogLog) (item : value) :
  wf h -> add h item = Ok h' -> wf h'.
Proof.
  intros Hwf E. destruct item as [| b | z | s]; try discriminate.
  destruct (hll_add_spec h s Hwf) as (Hidx & Hrho & E').
  rewrite E' in E. apply Ok_inj in E. subst h'.
  destruct (_ <? _); [|assumption].
  destruct Hwf as [Hp Hm Hlen Hranks].
  apply wf_intro; auto.
  - now rewrite length_update.
  - apply Forall_update; [assumption | lia].
Qed.

Lemma hll_init_wf (pv : value) (h : HyperLogLog) : __init__ pv = Ok h -> wf h.
Proof.
  unfold __init__. destruct (as_int pv) as [q|]; [|discriminate].
  destruct (Z.ltb_spec q 4); [discriminate|].
  destruct (Z.ltb_spec 20 q); [discriminate|]. cbn [orb].
  intros [= <-]. apply wf_intro.
  - lia.
  - apply Z.shiftl_1_l.
  - apply repeat_length.
  - apply Forall_forall. intros r Hr. apply repeat_spec in Hr. lia.
Qed.

Lemma hll_reachable_wf (h : HyperLogLog) : reachable h -> wf h.
Proof.
  induction 1 as [pv h E | h h' item _ IH E].
  - exact (hll_init_wf _ _ E).
  - exact (hll_add_wf _ _ _ IH E).
Qed.

(** C5. [add] hashes the encoded item to 64 bits; the top [p] bits are
    the register index, in [0, m); the rank is the number of leading
    zero bits of the remaining [64 - p] bits plus one, between 1 and
    [64 - p + 1]; the selected register becomes the rank when the rank is
    larger and nothing else changes. *)
Theorem add_register_update (h : HyperLogLog) (s : str) :
  wf h ->
  let x := from_bytes_big (blake2b_8 (encode s)) in
  let idx := x / 2 ^ (64 - p h) in
  let w := x mod 2 ^ (64 - p h) in
  let rho := leading_zeros (Z.to_nat (64 - p h)) w + 1 in
  let old := nth (Z.to_nat idx) (registers h) 0 in
  0 <= x < 2 ^ 64 /\
  0 <= idx < m h /\
  (forall i, 0 <= i -> Z.testbit idx i = Z.testbit x (i + (64 - p h))) /\
  (forall i, 0 <= i < 64 - p h -> Z.testbit w i = Z.testbit x i) /\
  _clz w (64 - p h) + 1 = rho /\
  1 <= rho <= 64 - p h + 1 /\
  exists h',
    add h (VStr s) = Ok h' /\
    p h' = p h /\ m h' = m h /\ alpha h' = alpha h /\
    registers h'
    = (if old <? rho then update (registers h) (Z.to_nat idx) rho
       else registers h) /\
    nth (Z.to_nat idx) (registers h') 0 = Z.max old rho /\
    forall j, j <> Z.to_nat idx ->
      nth j (registers h') 0 = nth j (registers h) 0.
Proof.
  intros Hwf x idx w rho old.
  pose proof (wf_p _ Hwf) as Hp.
  destruct (hll_add_spec h s Hwf) as (Hidx & Hrho & E).
  fold x idx w rho old in Hidx, Hrho, E.
  split; [apply hash64_range|]. split; [exact Hidx|].
  split; [intros i Hi; unfold idx; apply Z.div_pow2_bits; lia|].
  split; [intros i Hi; unfold w; apply Z.mod_pow2_bits_low; lia|].
  split.
  { unfold rho. rewrite <- _clz_leading_zeros.
    - now rewrite Z2Nat.id by lia.
    - rewrite Z2Nat.id by lia. apply Z.mod_pos_bound.
      apply Z.pow_pos_nonneg; lia. }
  split; [exact Hrho|].
  eexists. split; [exact E|].
  assert (Hlen : (Z.to_nat idx < length (registers h))%nat).
  { rewrite (wf_length _ Hwf). lia. }
  destruct (Z.ltb_spec old rho) as [Hlt|Hge]; cbn [p m alpha registers].
  - repeat (split; [reflexivity|]). split.
    + rewrite nth_update by assumption. rewrite Nat.eqb_refl. lia.
    + intros j Hj. rewrite nth_update by assumption.
      destruct (Nat.eqb_spec j (Z.to_nat idx)); [contradiction|reflexivity].
  - repeat (split; [reflexivity|]). split; [fold old; lia | reflexivity].
Qed.

#[local] Set Warnings "-inexact-float".

(** C6. The constructor raises [ValueError] for an argument that is not
    an integer or lies outside [4, 20]; inside the range it sets
    [m = 2 ** p], [m] registers at zero, and [alpha] to 0.673, 0.697 or
    0.709 for [m] = 16, 32 or 64 and to [0.7213 / (1 + 1.079 / m)]
    otherwise. *)
Theorem init_precision_and_alpha (pv : value) :
  match as_int pv with
  | None => __init__ pv = Raise ValueError
  | Some q =>
      (q < 4 \/ 20 < q -> __init__ pv = Raise ValueError) /\
      (4 <= q <= 20 ->
       exists h,
         __init__ pv = Ok h /\ p h = q /\ m h = 2 ^ q /\
         registers h = repeat 0 (Z.to_nat (2 ^ q)) /\
         alpha h
         = if m h =? 16 then 0.673%float
           else if m h =? 32 then 0.697%float
           else if m h =? 64 then 0.709%float
           else (0.7213 / (1 + 1.079 / float_of_int (m h)))%float)
  end.
Proof.
  unfold __init__. destruct (as_int pv) as [q|]; [|reflexivity].
  split.
  - intros Hq.
    destruct (Z.ltb_spec q 4); [reflexivity|].
    destruct (Z.ltb_spec 20 q); [reflexivity|]. lia.
  - intros Hq.
    destruct (Z.ltb_spec q 4); [lia|].
    destruct (Z.ltb_spec 20 q); [lia|]. cbn [orb].
    eexists. split; [reflexivity|]. cbn [p m registers alpha].
    rewrite Z.shiftl_1_l. repeat (split; [reflexivity|]). reflexivity.
Qed.

End Facts.
End task2_facts.

(* ================================================================== *)
(** * HyperLogLog: the estimate *)
(* ================================================================== *)

Module estimate_facts.
Import task2 spec2 PyFacts FloatFacts task2_facts.

Lemma float_pow2_rank (r : Z) :
  0 <= r <= 1022 ->
  float_pow2 (- r) = Ok (Z.ldexp 1 (- r)) /\
  (0 <? Z.ldexp 1 (- r))%float = true.
Proof.
  intros Hr. split; [|apply ldexp_1_pos; lia].
  unfold float_pow2.
  assert (Hbig : 1022 < 2 ^ 1024 - 2 ^ 970) by reflexivity.
  destruct (Z.leb_spec (2 ^ 1024 - 2 ^ 970) (Z.abs (- r))); [lia|].
  destruct (Z.leb_spec 1024 (- r)); [lia|]. reflexivity.
Qed.

Lemma zero_register_count_cons (r : Z) (regs : list Z) :
  zero_register_count (r :: regs)
  = (if r =? 0 then 1 else 0) + zero_register_count regs.
Proof.
  unfold zero_register_count. cbn [count_occ].
  destruct (Z.eq_dec r 0) as [->|Hne].
  - cbn [Z.eqb]. lia.
  - destruct (Z.eqb_spec r 0); [contradiction|]. lia.
Qed.

(** The loop of [estimate] computes the sum and the count the
    specification names. *)
Lemma scan_loop (regs : list Z) (acc : float) (zs : Z) :
  Forall (fun r => 0 <= r <= 1022) regs ->
  foldM scan regs (acc, zs)
  = Ok (fold_left (fun a r => (a + Z.ldexp 1 (- r))%float) regs acc,
        zs + zero_register_count regs).
Proof.
  intros Hall. revert acc zs.
  induction Hall as [|r regs Hr _ IH]; intros acc zs.
  - cbn. unfold zero_register_count. cbn. now rewrite Z.add_0_r.
  - cbn [foldM fold_left]. unfold scan at 1.
    rewrite (proj1 (float_pow2_rank r Hr)). cbn [bind].
    rewrite IH, zero_register_count_cons. f_equal. f_equal.
    destruct (r =? 0); lia.
Qed.

Lemma sum_stays_pos (regs : list Z) (acc : float) :
  Forall (fun r => 0 <= r <= 1022) regs ->
  (0 <? acc)%float = true ->
  (0 <? fold_left (fun a r => (a + Z.ldexp 1 (- r))%float) regs acc)%float
  = true.
Proof.
  intros Hall. revert acc.
  induction Hall as [|r regs Hr _ IH]; intros acc Hacc; [exact Hacc|].
  cbn [fold_left]. apply IH. apply add_pos.
  - rewrite leb_0_nonneg. rewrite ltb_0_pos in Hacc.
    now destruct (Prim2SF acc) as [s|[|]| |[|] mx ex].
  - apply (proj2 (float_pow2_rank r Hr)).
Qed.

Lemma harmonic_sum_pos (regs : list Z) :
  regs <> [] -> Forall (fun r => 0 <= r <= 1022) regs ->
  (0 <? harmonic_sum regs)%float = true.
Proof.
  intros Hne Hall. destruct regs as [|r regs]; [contradiction|].
  inversion Hall as [|? ? Hr Hrest]; subst.
  unfold harmonic_sum. cbn [fold_left].
  apply sum_stays_pos; [assumption|].
  apply add_pos; [reflexivity|]. apply (proj2 (float_pow2_rank r Hr)).
Qed.

Lemma wf_ranks_small (h : HyperLogLog) :
  wf h -> Forall (fun r => 0 <= r <= 1022) (registers h).
Proof.
  intros Hwf. pose proof (wf_p _ Hwf) as Hp.
  eapply Forall_impl; [|exact (wf_ranks _ Hwf)].
  cbv beta. intros r Hr. lia.
Qed.

Lemma wf_m_range (h : HyperLogLog) :
  wf h -> 16 <= m h <= 2 ^ 20 /\ registers h <> [].
Proof.
  intros Hwf. pose proof (wf_p _ Hwf) as Hp.
  pose proof (wf_length _ Hwf) as Hlen. rewrite (wf_m _ Hwf) in *.
  assert (2 ^ 4 <= 2 ^ p h) by (apply Z.pow_le_mono_r; lia).
  assert (2 ^ p h <= 2 ^ 20) by (apply Z.pow_le_mono_r; lia).
  change (2 ^ 4) with 16 in *.
  split; [lia|]. intros E. rewrite E in Hlen. cbn in Hlen. lia.
Qed.

Lemma zero_register_count_range (regs : list Z) :
  0 <= zero_register_count regs <= Z.of_nat (length regs).
Proof.
  unfold zero_register_count.
  pose proof (count_occ_bound Z.eq_dec 0 regs). lia.
Qed.

Section Facts.
Variable ln : float -> float.

(** What [estimate] computes on a well-formed state, branch by branch. *)
Lemma estimate_spec (h : HyperLogLog) :
  wf h ->
  let m_f := float_of_int (m h) in
  let inv_sum := harmonic_sum (registers h) in
  let zeros := zero_register_count (registers h) in
  let raw := (alpha h * float_of_int (m h * m h) / inv_sum)%float in
  (0 <? inv_sum)%float = true /\
  raw_estimate h inv_sum = Ok raw /\
  estimate ln h
  = if (raw <=? 0x1.4p+1 * m_f)%float && (0 <? zeros)
    then Ok (m_f * ln (m_f / float_of_int zeros))%float
    else if (two64 / 0x1.ep+4 <? raw)%float
    then if (1 - raw / two64 <=? 0)%float then Raise ValueError
         else Ok ((- two64) * ln (1 - raw / two64))%float
    else Ok raw.
Proof.
  intros Hwf m_f inv_sum zeros raw.
  pose proof (wf_ranks_small h Hwf) as Hranks.
  destruct (wf_m_range h Hwf) as [Hm Hne].
  pose proof (harmonic_sum_pos _ Hne Hranks) as Hpos. fold inv_sum in Hpos.
  assert (Hraw : raw_estimate h inv_sum = Ok raw).
  { unfold raw_estimate, float_div.
    rewrite eqb_0_pos by (now rewrite <- ltb_0_pos). reflexivity. }
  split; [exact Hpos|]. split; [exact Hraw|].
  unfold estimate. rewrite (scan_loop _ _ _ Hranks). cbn [bind].
  fold (harmonic_sum (registers h)). fold inv_sum.
  rewrite Z.add_0_l. fold zeros. rewrite Hraw. cbn [bind]. fold m_f.
  destruct ((raw <=? 0x1.4p+1 * m_f)%float && (0 <? zeros)) eqn:Esmall.
  - apply andb_true_iff in Esmall as [_ Hz]. apply Z.ltb_lt in Hz.
    pose proof (zero_register_count_range (registers h)) as Hzr.
    fold zeros in Hzr. rewrite (wf_length _ Hwf) in Hzr.
    assert (Hp52 : 2 ^ 20 < 2 ^ 52) by reflexivity.
    destruct (int_truediv_pos (m h) zeros ltac:(lia) ltac:(lia)) as [-> Hq].
    cbn [bind]. unfold math_log. fold m_f in Hq |- *. rewrite Hq. reflexivity.
  - destruct (two64 / 0x1.ep+4 <? raw)%float; [|reflexivity].
    unfold math_log. destruct (1 - raw / two64 <=? 0)%float; reflexivity.
Qed.

(** C2, as the code has it. On every register state of the estimator
    ([m = 2 ** p] registers, ranks in [0, 64 - p + 1]) [estimate]
    returns the linear-counting value [m * ln(m / zeros)] when the raw
    estimate [alpha * m * m / sum(2 ** -r)] is at most [2.5 * m] and a
    register is zero; otherwise, when the raw estimate exceeds
    [2 ** 64 / 30], it returns [- 2 ** 64 * ln(1 - raw / 2 ** 64)] if
    [1 - raw / 2 ** 64] is positive and raises [ValueError] (the domain
    error of [math.log]) if it is not; otherwise it returns the raw
    estimate. *)
Theorem estimate_branches (h : HyperLogLog) :
  wf h ->
  let m_f := float_of_int (m h) in
  let zeros := zero_register_count (registers h) in
  let raw :=
    (alpha h * float_of_int (m h * m h) / harmonic_sum (registers h))%float in
  let small := (raw <=? 2.5 * m_f)%float && (0 <? zeros) in
  let large := (Z.ldexp 1 64 / 30 <? raw)%float in
  let arg := (1 - raw / Z.ldexp 1 64)%float in
  ((0 <? zeros) = true <-> In 0 (registers h)) /\
  (small = true ->
   estimate ln h = Ok (m_f * ln (m_f / float_of_int zeros))%float) /\
  (small = false -> large = true -> (arg <=? 0)%float = false ->
   estimate ln h = Ok (- Z.ldexp 1 64 * ln arg)%float) /\
  (small = false -> large = true -> (arg <=? 0)%float = true ->
   estimate ln h = Raise ValueError) /\
  (small = false -> large = false -> estimate ln h = Ok raw).
Proof.
  intros Hwf m_f zeros raw small large arg.
  destruct (estimate_spec h Hwf) as (_ & _ & E).
  fold m_f zeros raw in E.
  change (0x1.4p+1)%float with 2.5%float in E.
  change (0x1.ep+4)%float with 30%float in E.
  change two64 with (Z.ldexp 1 64) in E.
  fold small large arg in E.
  split.
  { unfold zeros, zero_register_count. rewrite Z.ltb_lt.
    rewrite (count_occ_In Z.eq_dec). lia. }
  split; [intros Hs; now rewrite E, Hs|].
  split; [intros Hs Hl Ha; now rewrite E, Hs, Hl, Ha|].
  split; [intros Hs Hl Ha; now rewrite E, Hs, Hl, Ha|].
  intros Hs Hl. now rewrite E, Hs, Hl.
Qed.

(** C10, as the code has it. On every register state of the estimator
    ([m = 2 ** p] registers, ranks in [0, 64 - p + 1]) each term
    [2 ** -r] is positive and so is their sum, the loop of [estimate]
    computes that sum, and the division giving the raw estimate does
    not raise. [estimate] then returns a float, unless the large-range
    correction is taken with [1 - raw / 2 ** 64 <= 0]: there [math.log]
    raises [ValueError]. *)
Theorem estimate_denominator_positive (h : HyperLogLog) :
  wf h ->
  let inv_sum := harmonic_sum (registers h) in
  let zeros := zero_register_count (registers h) in
  let raw := (alpha h * float_of_int (m h * m h) / inv_sum)%float in
  Forall (fun r => (0 <? Z.ldexp 1 (- r))%float = true) (registers h) /\
  foldM scan (registers h) (0%float, 0) = Ok (inv_sum, zeros) /\
  (0 <? inv_sum)%float = true /\
  raw_estimate h inv_sum = Ok raw /\
  ((exists v, estimate ln h = Ok v) \/
   (estimate ln h = Raise ValueError /\
    (Z.ldexp 1 64 / 30 <? raw)%float = true /\
    (1 - raw / Z.ldexp 1 64 <=? 0)%float = true)).
Proof.
  intros Hwf inv_sum zeros raw.
  pose proof (wf_ranks_small h Hwf) as Hranks.
  destruct (estimate_spec h Hwf) as (Hpos & Hraw & E).
  fold inv_sum zeros raw in Hpos, Hraw, E.
  split.
  { eapply Forall_impl; [|exact Hranks]. cbv beta.
    intros r Hr. apply (proj2 (float_pow2_rank r Hr)). }
  split.
  { rewrite (scan_loop _ _ _ Hranks). now rewrite Z.add_0_l. }
  split; [exact Hpos|]. split; [exact Hraw|].
  rewrite E.
  destruct (_ && _); [left; eauto|].
  change (0x1.ep+4)%float with 30%float.
  change two64 with (Z.ldexp 1 64).
  destruct (Z.ldexp 1 64 / 30 <? raw)%float; [|left; eauto].
  destruct (1 - raw / Z.ldexp 1 64 <=? 0)%float; [right; auto | left; eauto].
Qed.

End Facts.
End estimate_facts.

(* ================================================================== *)
(** * The code run on concrete inputs *)
(* ================================================================== *)

Module examples.
Import task1 task2 samples.

(** The runtime model on sample inputs, with the values Python gives. *)

Example encode_euro_e_acute :
  encode [0x20AC; 0xE9]%N = [xe2; x82; xac; xc3; xa9].
Proof. reflexivity. Qed.

Example encode_emoji : encode [0x1F600]%N = [xf0; x9f; x98; x80].
Proof. reflexivity. Qed.

Example encode_lone_surrogates :
  encode [0xD800; 0x61; 0xDFFF]%N = [x3f; x61; x3f].
Proof. reflexivity. Qed.

Example strip_blanks :
  strip ([0x20; 0x09; 0x3000] ++ str_of_string "a b" ++ [0x0A; 0x85])%N
  = str_of_string "a b".
Proof. reflexivity. Qed.

Example strip_only_blanks : strip [0x20; 0xA0; 0x2028; 0x1F]%N = [].
Proof. reflexivity. Qed.

Example py_str_negative_int : py_str (VInt (-12)) = str_of_string "-12".
Proof. reflexivity. Qed.

Example from_bytes_big_two : from_bytes_big [x01; x02] = 258.
Proof. reflexivity. Qed.

Example getitem_negative_index : getitem [10; 20; 30] (-1) = Ok 30.
Proof. reflexivity. Qed.

Example getitem_out_of_range : getitem [10; 20; 30] 3 = Raise IndexError.
Proof. reflexivity. Qed.

Example bit_length_5 : bit_length 5 = 3 /\ bit_length (-5) = 3.
Proof. split; reflexivity. Qed.

Example _clz_samples :
  task2._clz 0 60 = 60 /\ task2._clz 1 60 = 59 /\ task2._clz (2 ^ 59) 60 = 0.
Proof. repeat split; reflexivity. Qed.

#[local] Set Warnings "-inexact-float".

(** [0.7213 / (1.0 + 1.079 / 128)] in Python. *)
Example alpha_p7 :
  (exists h, task2.__init__ (VInt 7) = Ok h /\
             alpha h = 0.7152704932638152%float).
Proof. eexists. split; reflexivity. Qed.

(** [0.673 * 256 / (16 * 2.0 ** -61)] in Python. *)
Example raw_hll4_full :
  task2.raw_estimate hll4_full (spec2.harmonic_sum (registers hll4_full))
  = Ok 2.482931752321306e+19%float.
Proof. reflexivity. Qed.

Example set_then_get_bit :
  (bf <- @task1._set_bit bloom8 5 ;; Ok (_bits bf)) = Ok [32] /\
  (bf <- @task1._set_bit bloom8 5 ;; @task1._get_bit bf 5) = Ok 1 /\
  @task1._get_bit bloom8 5 = Ok 0.
Proof. repeat split; reflexivity. Qed.

Lemma bloom8_init :
  @task1.__init__ (VInt 8) (VInt 1) = Ok bloom8.
Proof. reflexivity. Qed.

Lemma bloom8_wf : spec1.wf bloom8.
Proof. exact (task1_facts.init_wf _ _ _ bloom8_init). Qed.

Lemma bloom8_reachable : @spec1.reachable toy_hashlib bloom8.
Proof. exact (spec1.reachable_init _ _ _ bloom8_init). Qed.

Lemma hll4_init : task2.__init__ (VInt 4) = Ok hll4.
Proof. reflexivity. Qed.

Lemma hll4_wf : spec2.wf hll4.
Proof. exact (task2_facts.hll_init_wf _ _ hll4_init). Qed.

Lemma full_wf (q : Z) (a : float) :
  4 <= q <= 20 ->
  spec2.wf (mkHyperLogLog q (2 ^ q) (repeat (64 - q + 1) (Z.to_nat (2 ^ q))) a).
Proof.
  intros Hq. apply task2_facts.wf_intro; auto.
  - apply repeat_length.
  - apply Forall_forall. intros r Hr. apply repeat_spec in Hr. lia.
Qed.

Lemma add_then_contains_run :
  @spec1.reachable toy_hashlib bloom8 /\
  exists bf',
    @task1.add toy_hashlib bloom8 (text "abc") = Ok bf' /\
    @task1.contains toy_hashlib bf' (text "abc") = Ok true /\
    forall later bf'',
      foldM (@task1.add toy_hashlib) later bf' = Ok bf'' ->
      @task1.contains toy_hashlib bf'' (text "abc") = Ok true.
Proof.
  split; [exact bloom8_reachable|].
  exact (@task1_facts.add_then_contains toy_hashlib bloom8
           (str_of_string "abc") bloom8_reachable).
Defined.



Lemma hash_positions_formula_run :
  0 < size bloom8 /\
  @task1._hash_positions toy_hashlib bloom8 (str_of_string "abc")
  = Ok (@spec1.probe_positions toy_hashlib 8 1 (str_of_string "abc")).
Proof.
  assert (Hsz : 0 < size bloom8) by (cbn; lia).
  split; [exact Hsz|].
  exact (proj1 (@task1_facts.hash_positions_formula toy_hashlib bloom8
                  (str_of_string "abc") Hsz)).
Defined.

Lemma add_idempotent_run :
  spec1.wf bloom8 /\
  exists bf1 bf2,
    @task1.add toy_hashlib bloom8 (text "abc") = Ok bf1 /\
    @task1.add toy_hashlib bf1 (text "abc") = Ok bf2 /\
    _bits bf2 = _bits bf1 /\
    forall q, @task1.contains toy_hashlib bf2 q
              = @task1.contains toy_hashlib bf1 q.
Proof.
  split; [exact bloom8_wf|].
  exact (@task1_facts.add_idempotent toy_hashlib bloom8
           (str_of_string "abc") bloom8_wf).
Defined.



Lemma add_register_update_run :
  spec2.wf hll4 /\
  exists h',
    @task2.add toy_hashlib hll4 (text "abc") = Ok h' /\
    registers h' = update (registers hll4) 6 4.
Proof.
  split; [exact hll4_wf|].
  destruct (@task2_facts.add_register_update toy_hashlib hll4
              (str_of_string "abc") hll4_wf)
    as (_ & _ & _ & _ & _ & _ & h' & E & _ & _ & _ & Hregs & _).
  exists h'. split; [exact E|]. rewrite Hregs. reflexivity.
Defined.

Lemma init_precision_and_alpha_run :
  task2.__init__ (VInt 3) = Raise ValueError /\
  task2.__init__ (VInt 21) = Raise ValueError /\
  task2.__init__ VNone = Raise ValueError /\
  exists h, task2.__init__ (VInt 4) = Ok h /\ m h = 16.
Proof.
  split; [|split; [|split]].
  - apply (proj1 (task2_facts.init_precision_and_alpha (VInt 3))). lia.
  - apply (proj1 (task2_facts.init_precision_and_alpha (VInt 21))). lia.
  - exact (task2_facts.init_precision_and_alpha VNone).
  - destruct (proj2 (task2_facts.init_precision_and_alpha (VInt 4))
                ltac:(lia)) as (h & E & _ & Hm & _).
    exists h. split; [exact E | exact Hm].
Defined.

Lemma reachable_foldM_add {H : hashlib} (items : list value)
  (h h' : HyperLogLog) :
  spec2.reachable h -> foldM task2.add items h = Ok h' -> spec2.reachable h'.
Proof.
  revert h. induction items as [|v items IH]; cbn [foldM]; intros h Hr E.
  - apply PyFacts.Ok_inj in E. now subst h'.
  - apply PyFacts.bind_ok in E as (h1 & E1 & E2).
    apply (IH h1); [|exact E2].
    exact (spec2.reachable_add h h1 v Hr E1).
Qed.

(** With the digest as a parameter, the state with every register at the
    largest rank is one that [add] produces from a fresh estimator. *)
Lemma hll4_full_reachable : @spec2.reachable nibble_hashlib hll4_full.
Proof.
  apply (@reachable_foldM_add nibble_hashlib sixteen_items hll4).
  - exact (spec2.reachable_init (VInt 4) hll4 eq_refl).
  - reflexivity.
Qed.

(** C2 as stated fails: with every register of [HyperLogLog(5)] at rank
    60 the raw estimate exceeds [2 ** 64], and [estimate] raises
    instead of returning the large-range value, whatever the logarithm
    is. *)
Lemma estimate_raises_hll5_full :
  spec2.wf hll5_full /\
  ~ exists (ln : float -> float) (v : float),
      task2.estimate ln hll5_full = Ok v.
Proof.
  split; [exact (full_wf 5 _ ltac:(lia))|].
  intros (ln & v & E). vm_compute in E. discriminate.
Qed.

Lemma estimate_branches_run :
  spec2.wf hll4 /\
  task2.estimate ln_stub hll4
  = Ok (float_of_int 16 * ln_stub (float_of_int 16 / float_of_int 16))%float.
Proof.
  split; [exact hll4_wf|].
  exact (proj1 (proj2 (estimate_facts.estimate_branches ln_stub hll4 hll4_wf))
           eq_refl).
Defined.

(** C10 as stated fails: with every register of [HyperLogLog(4)] at
    rank 61, a state within the stated bounds, the denominator is
    positive and the raw estimate is computed, yet [estimate] is not
    total: it raises [ValueError]. *)
Lemma estimate_raises_hll4_full :
  spec2.wf hll4_full /\
  (0 <? spec2.harmonic_sum (registers hll4_full))%float = true /\
  (fun ln : float -> float => task2.estimate ln hll4_full)
  = (fun _ => Raise ValueError).
Proof.
  split; [exact (full_wf 4 _ ltac:(lia))|].
  split; reflexivity.
Qed.

Lemma estimate_denominator_positive_run :
  spec2.wf hll4 /\
  (0 <? spec2.harmonic_sum (registers hll4))%float = true /\
  exists v, task2.estimate ln_stub hll4 = Ok v.
Proof.
  split; [exact hll4_wf|].
  destruct (estimate_facts.estimate_denominator_positive ln_stub hll4 hll4_wf)
    as (_ & _ & Hpos & _ & [Hv | (E & _)]).
  - split; [exact Hpos | exact Hv].
  - vm_compute in E. discriminate.
Defined.

End examples.

(* ================================================================== *)
(** * The Bloom filter as a whole *)
(* ================================================================== *)

Module filter_props.
Import task1 spec1 spec3 PyFacts task1_facts.

Lemma existsb_ext {A : Type} (f g : A -> bool) (l : list A) :
  (forall a, f a = g a) -> existsb f l = existsb g l.
Proof.
  intros Hfg. induction l as [|a l IH]; cbn; [reflexivity|].
  now rewrite Hfg, IH.
Qed.

Lemma bit_of_zeros (sz k : Z) (n : nat) (j : Z) :
  bit (mkBloomFilter sz k (repeat 0 n)) j = false.
Proof.
  unfold bit. cbn [_bits]. rewrite nth_repeat. apply Z.testbit_0_l.
Qed.

Lemma init_inv (sz k : value) (bf : BloomFilter) :
  __init__ sz k = Ok bf ->
  exists n j,
    as_int sz = Some n /\ as_int k = Some j /\ 0 < n /\ 0 < j /\
    bf = mkBloomFilter n j (repeat 0 (Z.to_nat ((n + 7) / 8))).
Proof.
  unfold __init__.
  destruct (as_int sz) as [n|]; [|destruct (as_int k); discriminate].
  destruct (as_int k) as [j|]; [|discriminate].
  destruct (Z.leb_spec n 0); [discriminate|].
  destruct (Z.leb_spec j 0); [discriminate|].
  intros E. apply Ok_inj in E. exists n, j. auto.
Qed.

(** Two well-formed filters of one size with the same bits are the same
    byte for byte. *)
Lemma bits_ext (bf1 bf2 : BloomFilter) :
  wf bf1 -> wf bf2 -> size bf1 = size bf2 ->
  (forall j, 0 <= j -> bit bf1 j = bit bf2 j) ->
  _bits bf1 = _bits bf2.
Proof.
  intros W1 W2 Hsz Hbits.
  assert (Hlen : length (_bits bf1) = length (_bits bf2)).
  { rewrite (wf_length _ W1), (wf_length _ W2). now rewrite Hsz. }
  apply (nth_ext _ _ 0 0 Hlen). intros n Hn.
  assert (B1 : 0 <= nth n (_bits bf1) 0 < 256).
  { pose proof (wf_bytes _ W1) as F. rewrite Forall_forall in F.
    apply F, nth_In. exact Hn. }
  assert (B2 : 0 <= nth n (_bits bf2) 0 < 256).
  { pose proof (wf_bytes _ W2) as F. rewrite Forall_forall in F.
    apply F, nth_In. lia. }
  apply Z.bits_inj'. intros t Ht.
  destruct (Z.lt_ge_cases t 8) as [Hlt|Hge].
  - specialize (Hbits (8 * Z.of_nat n + t) ltac:(lia)).
    unfold bit in Hbits.
    replace ((8 * Z.of_nat n + t) / 8) with (Z.of_nat n) in Hbits.
    2:{ apply Z.div_unique with t; lia. }
    replace ((8 * Z.of_nat n + t) mod 8) with t in Hbits.
    2:{ apply Z.mod_unique with (Z.of_nat n); lia. }
    now rewrite Nat2Z.id in Hbits.
  - assert (Hhigh : forall b, 0 <= b < 256 -> Z.testbit b t = false).
    { intros b Hb. destruct (Z.eq_dec b 0) as [->|Hne].
      - apply Z.testbit_0_l.
      - apply Z.bits_above_log2; [lia|].
        assert (Z.log2 b < 8) by (apply Z.log2_lt_pow2; [lia|]; cbn; lia).
        lia. }
    now rewrite !Hhigh.
Qed.

Section Facts.
Context {H : hashlib}.

Lemma present_spec (bf : BloomFilter) (item : str) :
  wf bf -> contains bf (VStr item) = Ok (present bf item).
Proof. apply contains_spec. Qed.

(** Inserting a list of strings sets exactly their probe bits. *)
Lemma add_many_spec (items : list str) (bf : BloomFilter) :
  wf bf ->
  exists bf',
    foldM add (map VStr items) bf = Ok bf' /\ wf bf' /\
    size bf' = size bf /\ num_hashes bf' = num_hashes bf /\
    forall j, 0 <= j ->
      bit bf' j
      = bit bf j
        || existsb (fun s => existsb (Z.eqb j) (positions bf s)) items.
Proof.
  revert bf. induction items as [|s items IH]; intros bf Hwf.
  - exists bf. cbn. split; [reflexivity|]. split; [assumption|].
    split; [reflexivity|]. split; [reflexivity|].
    intros j _. now rewrite orb_false_r.
  - destruct (add_spec bf s Hwf) as (bf1 & E1 & W1 & Hsz1 & Hk1 & Hb1).
    destruct (IH bf1 W1) as (bf2 & E2 & W2 & Hsz2 & Hk2 & Hb2).
    exists bf2. cbn [map foldM]. rewrite E1. cbn [bind].
    split; [exact E2|]. split; [exact W2|].
    split; [congruence|]. split; [congruence|].
    intros j Hj. rewrite Hb2, Hb1 by assumption. cbn [existsb].
    rewrite <- orb_assoc. f_equal. f_equal.
    apply existsb_ext. intros s'.
    now rewrite (positions_same_shape _ _ _ Hsz1 Hk1).
Qed.


(** X2. A filter fresh from the constructor contains nothing:
    [contains] answers [False] for every string. *)
Theorem fresh_filter_contains_nothing (sz k : value) (bf : BloomFilter)
  (item : str) :
  __init__ sz k = Ok bf -> contains bf (VStr item) = Ok false.
Proof.
  intros E. pose proof (init_wf _ _ _ E) as Hwf.
  rewrite contains_spec by assumption. f_equal.
  destruct (init_inv _ _ _ E) as (n & j & _ & _ & Hn & Hj & ->).
  unfold positions, range. cbn [size num_hashes].
  destruct (Z.to_nat j) as [|c] eqn:Ec; [lia|].
  cbn [seq map forallb]. now rewrite bit_of_zeros.
Qed.

(** X3. [_set_bit] then [_get_bit]: within [0, size) setting a bit
    makes it read 1, leaves every other bit of the filter as it read
    before and keeps the byte array's length; an index past the last
    byte raises [IndexError] in both. *)
Theorem set_bit_then_get_bit (bf : BloomFilter) :
  wf bf ->
  (forall idx, 0 <= idx < size bf ->
     exists bf',
       _set_bit bf idx = Ok bf' /\ _get_bit bf' idx = Ok 1 /\
       length (_bits bf') = length (_bits bf) /\
       forall j, 0 <= j < size bf -> j <> idx ->
         _get_bit bf' j = _get_bit bf j) /\
  (forall idx, 8 * Z.of_nat (length (_bits bf)) <= idx ->
     _set_bit bf idx = Raise IndexError /\ _get_bit bf idx = Raise IndexError).
Proof.
  intros Hwf. split.
  - intros idx Hidx.
    destruct (_set_bit_spec bf idx Hwf Hidx) as (bf' & E & W' & Hsz & _ & Hb).
    exists bf'. split; [exact E|]. split.
    { rewrite _get_bit_spec by (assumption || lia).
      rewrite Hb by lia. now rewrite Z.eqb_refl, orb_true_r. }
    split.
    { rewrite (wf_length _ W'), (wf_length _ Hwf). now rewrite Hsz. }
    intros j Hj Hne.
    rewrite !_get_bit_spec by (assumption || lia).
    rewrite Hb by lia.
    destruct (Z.eqb_spec j idx); [contradiction|]. now rewrite orb_false_r.
  - intros idx Hidx.
    assert (Hq : Z.of_nat (length (_bits bf)) <= idx / 8).
    { apply Z.div_le_lower_bound; lia. }
    assert (E : norm_index (_bits bf) (idx / 8) = Raise IndexError).
    { unfold norm_index.
      destruct (Z.ltb_spec (idx / 8) 0); [lia|].
      destruct (Z.ltb_spec (idx / 8) 0); [lia|].
      destruct (Z.leb_spec (Z.of_nat (length (_bits bf))) (idx / 8)); [|lia].
      reflexivity. }
    unfold _set_bit, _get_bit, getitem. now rewrite E.
Qed.

(** X4. An insertion keeps [size], [num_hashes] and the length of the
    byte array, and never clears a bit: every bit that was set is still
    set, and every item [contains] reported stays reported. *)
Theorem add_never_clears (bf bf' : BloomFilter) (item : value) :
  wf bf -> add bf item = Ok bf' ->
  size bf' = size bf /\ num_hashes bf' = num_hashes bf /\
  length (_bits bf') = length (_bits bf) /\
  (forall j, 0 <= j -> bit bf j = true -> bit bf' j = true) /\
  (forall q, contains bf (VStr q) = Ok true ->
             contains bf' (VStr q) = Ok true).
Proof.
  intros Hwf E.
  destruct (add_wf bf bf' item Hwf E) as (W' & Hsz & Hk & Hmono).
  split; [exact Hsz|]. split; [exact Hk|]. split.
  { rewrite (wf_length _ W'), (wf_length _ Hwf). now rewrite Hsz. }
  split; [intros j Hj Hb; now apply Hmono|].
  intros q. rewrite !contains_spec by assumption.
  intros Eq. apply Ok_inj in Eq. f_equal.
  exact (probes_set_mono bf bf' q item Hwf E Eq).
Qed.

(** X5. After inserting a list of strings, [contains(q)] is [True]
    exactly when every probe position of [q] was set before or is a
    probe position of an inserted string: this is when a string that
    was never inserted is reported. *)
Theorem contains_after_insertions (bf : BloomFilter) (items : list str) :
  wf bf ->
  exists bf',
    foldM add (map VStr items) bf = Ok bf' /\
    forall q,
      contains bf' (VStr q) = Ok true <->
      (forall pos, In pos (positions bf q) ->
         bit bf pos = true \/
         exists s, In s items /\ In pos (positions bf s)).
Proof.
  intros Hwf.
  destruct (add_many_spec items bf Hwf) as (bf' & E & W' & Hsz & Hk & Hb).
  exists bf'. split; [exact E|]. intros q.
  rewrite contains_spec by assumption.
  rewrite (positions_same_shape _ _ _ Hsz Hk).
  pose proof (positions_in_range bf q (wf_size _ Hwf)) as Hrange.
  rewrite Forall_forall in Hrange.
  split.
  - intros Eq. apply Ok_inj in Eq. rewrite forallb_forall in Eq.
    intros pos Hin. specialize (Eq pos Hin).
    rewrite Hb in Eq by (specialize (Hrange pos Hin); lia).
    apply orb_true_iff in Eq as [Eq|Eq]; [now left|right].
    apply existsb_exists in Eq as (s & Hs & Eq).
    apply existsb_exists in Eq as (pos' & Hpos' & Eeq).
    apply Z.eqb_eq in Eeq. subst pos'. eauto.
  - intros Hall. f_equal. apply forallb_forall. intros pos Hin.
    rewrite Hb by (specialize (Hrange pos Hin); lia).
    apply orb_true_iff.
    destruct (Hall pos Hin) as [Hset|(s & Hs & Hpos)]; [now left|right].
    apply existsb_exists. exists s. split; [exact Hs|].
    apply existsb_exists. exists pos. split; [exact Hpos|apply Z.eqb_refl].
Qed.

(** X6. The filter state depends only on which strings were inserted:
    two insertion sequences with the same members, in any order and
    with any repetitions, end in the same filter. *)
Theorem filter_state_depends_on_set (bf : BloomFilter)
  (items1 items2 : list str) :
  wf bf -> (forall s, In s items1 <-> In s items2) ->
  exists bf',
    foldM add (map VStr items1) bf = Ok bf' /\
    foldM add (map VStr items2) bf = Ok bf'.
Proof.
  intros Hwf Hsame.
  destruct (add_many_spec items1 bf Hwf) as (b1 & E1 & W1 & Hs1 & Hk1 & Hb1).
  destruct (add_many_spec items2 bf Hwf) as (b2 & E2 & W2 & Hs2 & Hk2 & Hb2).
  exists b1. split; [exact E1|]. rewrite E2. f_equal.
  assert (Hbits : _bits b2 = _bits b1).
  { apply bits_ext; try assumption; [congruence|].
    intros j Hj. rewrite Hb1, Hb2 by assumption. f_equal.
    apply eq_true_iff_eq. rewrite !existsb_exists.
    split; intros (s & Hin & Hs); exists s; (split; [apply Hsame|]);
      assumption. }
  destruct b1, b2. cbn in *. congruence.
Qed.

End Facts.
End filter_props.

(* ================================================================== *)
(** * The uniqueness check as a whole *)
(* ================================================================== *)

Module classifier_props.
Import task1 spec1 spec3 PyFacts task1_facts classifier_facts filter_props.







Section Facts.
Context {H : hashlib}.










End Facts.
End classifier_props.

(* ================================================================== *)
(** * The estimator and the stream counters as a whole *)
(* ================================================================== *)

Module stream_props.
Import task2 spec2 spec3 PyFacts task2_facts.

Lemma max_of_spec (l : list Z) (a : Z) :
  a <= max_of a l /\ (forall x, In x l -> x <= max_of a l) /\
  (max_of a l = a \/ In (max_of a l) l).
Proof.
  unfold max_of. revert a. induction l as [|y l IH]; intros a; cbn [fold_left].
  - split; [lia|]. split; [intros x []|now left].
  - destruct (IH (Z.max a y)) as (H1 & H2 & H3).
    split; [lia|]. split.
    + intros x [<-|Hx]; [lia|auto].
    + destruct H3 as [E|Hin]; [|right; now right].
      destruct (Z.max_spec a y) as [[_ Em]|[_ Em]]; rewrite Em in *.
      * right. left. now rewrite E.
      * now left.
Qed.

Lemma max_of_same_members (l1 l2 : list Z) (a : Z) :
  (forall x, In x l1 <-> In x l2) -> max_of a l1 = max_of a l2.
Proof.
  intros Hsame.
  destruct (max_of_spec l1 a) as (A1 & B1 & C1).
  destruct (max_of_spec l2 a) as (A2 & B2 & C2).
  apply Z.le_antisymm.
  - destruct C1 as [->|Hin]; [assumption|]. apply B2, Hsame, Hin.
  - destruct C2 as [->|Hin]; [assumption|]. apply B1, Hsame, Hin.
Qed.

Lemma fresh_sum (n : nat) :
  harmonic_sum (repeat 0 n)
  = Nat.iter n (fun a => (a + 1)%float) 0%float.
Proof.
  unfold harmonic_sum. generalize 0%float as acc.
  induction n as [|n IH]; intros acc; [reflexivity|].
  cbn [repeat fold_left]. rewrite IH. now rewrite Nat.iter_succ_r.
Qed.

Lemma fresh_zero_count (n : nat) :
  zero_register_count (repeat 0 n) = Z.of_nat n.
Proof.
  unfold zero_register_count. f_equal.
  induction n as [|n IH]; [reflexivity|].
  cbn [repeat count_occ]. destruct (Z.eq_dec 0 0); [now rewrite IH|easy].
Qed.

Lemma in_set_add (s : list str) (ip x : str) :
  In x (set_add s ip) <-> x = ip \/ In x s.
Proof.
  unfold set_add. destruct (existsb (str_eqb ip) s) eqn:E.
  - split; [auto|]. intros [->|Hx]; [|assumption].
    apply existsb_exists in E as (y & Hy & Ey).
    apply classifier_facts.str_eqb_eq in Ey. now subst y.
  - rewrite in_app_iff. cbn. intuition.
Qed.

Lemma NoDup_set_add (s : list str) (ip : str) :
  NoDup s -> NoDup (set_add s ip).
Proof.
  intros Hnd. unfold set_add. destruct (existsb (str_eqb ip) s) eqn:E.
  - assumption.
  - apply NoDup_app; [assumption| |].
    + constructor; [intros []|constructor].
    + intros x Hx [->|[]].
      assert (existsb (str_eqb x) s = true); [|congruence].
      apply existsb_exists. exists x. split; [assumption|].
      now apply classifier_facts.str_eqb_eq.
Qed.

Lemma set_of_stream (ips s0 : list str) :
  NoDup s0 ->
  NoDup (fold_left set_add ips s0) /\
  forall x, In x (fold_left set_add ips s0) <-> In x s0 \/ In x ips.
Proof.
  revert s0. induction ips as [|ip ips IH]; intros s0 Hnd; cbn [fold_left].
  - split; [assumption|]. cbn. tauto.
  - destruct (IH (set_add s0 ip) (NoDup_set_add _ _ Hnd)) as [H1 H2].
    split; [exact H1|]. intros x. rewrite H2, in_set_add. cbn.
    intuition congruence.
Qed.

(** X12. [exact_unique_count] returns the number of distinct strings of
    the stream: it is at most the length of the stream, zero only for
    the empty stream, and the same for two streams with the same
    members, whatever their order and repetitions. *)
Theorem exact_unique_count_distinct (ips : list str) :
  exact_unique_count ips
  = Z.of_nat (length (nodup (list_eq_dec N.eq_dec) ips)) /\
  0 <= exact_unique_count ips <= Z.of_nat (length ips) /\
  (exact_unique_count ips = 0 <-> ips = []) /\
  forall ips', (forall x, In x ips <-> In x ips') ->
               exact_unique_count ips' = exact_unique_count ips.
Proof.
  assert (Hcount : forall l,
             exact_unique_count l
             = Z.of_nat (length (nodup (list_eq_dec N.eq_dec) l))).
  { intros l. unfold exact_unique_count. cbv zeta. f_equal.
    destruct (set_of_stream l [] (NoDup_nil _)) as [Hnd Hin].
    apply Permutation_length. apply NoDup_Permutation.
    - exact Hnd.
    - apply NoDup_nodup.
    - intros x. rewrite Hin, nodup_In. cbn. tauto. }
  split; [apply Hcount|]. split; [|split].
  - rewrite Hcount.
    pose proof (NoDup_incl_length
                  (NoDup_nodup (list_eq_dec N.eq_dec) ips)
                  (fun x Hx => proj1 (nodup_In _ _ _) Hx)) as Hle.
    split; [apply Nat2Z.is_nonneg | apply Nat2Z.inj_le; exact Hle].
  - rewrite Hcount. split.
    + intros E. destruct ips as [|x ips]; [reflexivity|].
      assert (Hx : In x (nodup (list_eq_dec N.eq_dec) (x :: ips))).
      { apply nodup_In. now left. }
      destruct (nodup (list_eq_dec N.eq_dec) (x :: ips));
        [destruct Hx | cbn in E; lia].
    + intros ->. reflexivity.
  - intros ips' Hsame. rewrite !Hcount. f_equal.
    apply Permutation_length. apply NoDup_Permutation; try apply NoDup_nodup.
    intros x. rewrite !nodup_In. symmetry. apply Hsame.
Qed.

Section Facts.
Context {H : hashlib}.

(** [add] writes the larger of the register and the item's rank. *)
Lemma add_max (h : HyperLogLog) (s : str) :
  wf h ->
  0 <= index_of (p h) s < m h /\
  add h (VStr s)
  = Ok (mkHyperLogLog (p h) (m h)
          (update (registers h) (Z.to_nat (index_of (p h) s))
             (Z.max (nth (Z.to_nat (index_of (p h) s)) (registers h) 0)
                    (rank_of (p h) s)))
          (alpha h)).
Proof.
  intros Hwf. destruct (hll_add_spec h s Hwf) as (Hidx & _ & E).
  fold (index_of (p h) s) in Hidx, E. fold (rank_of (p h) s) in E.
  split; [exact Hidx|]. rewrite E.
  destruct (Z.ltb_spec (nth (Z.to_nat (index_of (p h) s)) (registers h) 0)
                       (rank_of (p h) s)) as [Hlt|Hge].
  - now rewrite Z.max_r by lia.
  - rewrite Z.max_l by lia. rewrite update_same. now destruct h.
Qed.

(** After a stream, register [k] holds the largest of its old value and
    the ranks of the items that select it. *)
Lemma stream_spec (items : list str) (h : HyperLogLog) :
  wf h ->
  exists h',
    foldM add (map VStr items) h = Ok h' /\ wf h' /\
    p h' = p h /\ m h' = m h /\ alpha h' = alpha h /\
    length (registers h') = length (registers h) /\
    forall k, (k < length (registers h))%nat ->
      nth k (registers h') 0
      = max_of (nth k (registers h) 0)
          (map (rank_of (p h))
             (filter (fun s => index_of (p h) s =? Z.of_nat k) items)).
Proof.
  revert h. induction items as [|s items IH]; intros h Hwf.
  - exists h. cbn. repeat (split; [reflexivity || assumption|]). reflexivity.
  - destruct (add_max h s Hwf) as (Hidx & E1).
    set (h1 := mkHyperLogLog (p h) (m h)
                 (update (registers h) (Z.to_nat (index_of (p h) s))
                    (Z.max (nth (Z.to_nat (index_of (p h) s)) (registers h) 0)
                           (rank_of (p h) s)))
                 (alpha h)) in *.
    assert (W1 : wf h1) by (eapply hll_add_wf; eassumption).
    destruct (IH h1 W1) as (h' & E2 & W' & Hp & Hm & Ha & Hlen & Hregs).
    assert (Hl : (Z.to_nat (index_of (p h) s) < length (registers h))%nat).
    { rewrite (wf_length _ Hwf). lia. }
    exists h'. cbn [map foldM]. rewrite E1. cbn [bind].
    split; [exact E2|]. split; [exact W'|].
    split; [exact Hp|]. split; [exact Hm|]. split; [exact Ha|].
    split; [rewrite Hlen; apply length_update|].
    intros k Hk. rewrite Hregs by (cbn; now rewrite length_update).
    cbn [p registers h1 filter]. rewrite nth_update by assumption.
    destruct (Nat.eqb_spec k (Z.to_nat (index_of (p h) s))) as [->|Hne].
    + rewrite Z2Nat.id, Z.eqb_refl by lia. reflexivity.
    + destruct (Z.eqb_spec (index_of (p h) s) (Z.of_nat k)) as [Ek|_];
        [|reflexivity].
      rewrite Ek, Nat2Z.id in Hne. contradiction.
Qed.

(** X13. Fed a stream of strings, the estimator keeps [p], [m], [alpha]
    and its register count, stays within the rank bounds, never lowers
    a register, and leaves in each register the largest rank among the
    items of the stream that select it, or the old value if larger. *)
Theorem registers_hold_largest_rank (h : HyperLogLog) (items : list str) :
  wf h ->
  exists h',
    foldM add (map VStr items) h = Ok h' /\ wf h' /\
    p h' = p h /\ m h' = m h /\ alpha h' = alpha h /\
    length (registers h') = length (registers h) /\
    forall k, (k < length (registers h))%nat ->
      nth k (registers h) 0 <= nth k (registers h') 0 /\
      (forall s, In s items -> index_of (p h) s = Z.of_nat k ->
                 rank_of (p h) s <= nth k (registers h') 0) /\
      (nth k (registers h') 0 = nth k (registers h) 0 \/
       exists s, In s items /\ index_of (p h) s = Z.of_nat k /\
                 nth k (registers h') 0 = rank_of (p h) s).
Proof.
  intros Hwf.
  destruct (stream_spec items h Hwf)
    as (h' & E & W' & Hp & Hm & Ha & Hlen & Hregs).
  exists h'. repeat (split; [assumption|]).
  intros k Hk. rewrite (Hregs k Hk).
  destruct (max_of_spec
              (map (rank_of (p h))
                 (filter (fun s => index_of (p h) s =? Z.of_nat k) items))
              (nth k (registers h) 0)) as (A & B & C).
  split; [exact A|]. split.
  - intros s Hs Hidx. apply B. apply in_map. apply filter_In.
    split; [exact Hs | now apply Z.eqb_eq].
  - destruct C as [E0|Hin]; [now left|right].
    apply in_map_iff in Hin as (s & Es & Hs).
    apply filter_In in Hs as [Hs Hidx]. apply Z.eqb_eq in Hidx.
    exists s. auto.
Qed.

Lemma same_members_same_state (h : HyperLogLog) (items1 items2 : list str) :
  wf h -> (forall s, In s items1 <-> In s items2) ->
  exists h',
    foldM add (map VStr items1) h = Ok h' /\
    foldM add (map VStr items2) h = Ok h'.
Proof.
  intros Hwf Hsame.
  destruct (stream_spec items1 h Hwf)
    as (h1 & E1 & _ & Hp1 & Hm1 & Ha1 & Hl1 & Hr1).
  destruct (stream_spec items2 h Hwf)
    as (h2 & E2 & _ & Hp2 & Hm2 & Ha2 & Hl2 & Hr2).
  exists h1. split; [exact E1|]. rewrite E2. f_equal.
  assert (Hregs : registers h2 = registers h1).
  { apply (nth_ext _ _ 0 0); [congruence|].
    intros k Hk. rewrite Hr1, Hr2 by congruence.
    apply max_of_same_members. intros x. rewrite !in_map_iff.
    split; intros (s & Es & Hs); exists s; (split; [exact Es|]);
      apply filter_In in Hs as [Hs Hi]; apply filter_In;
      (split; [apply Hsame|]); assumption. }
  destruct h1, h2. cbn in *. congruence.
Qed.

(** X14. The register state depends only on which strings the stream
    holds: two streams with the same members, in any order and with any
    repetitions, leave the estimator in the same state. *)
Theorem registers_depend_on_set (h : HyperLogLog)
  (items1 items2 : list str) :
  wf h -> (forall s, In s items1 <-> In s items2) ->
  exists h',
    foldM add (map VStr items1) h = Ok h' /\
    foldM add (map VStr items2) h = Ok h'.
Proof.
  intros Hwf Hsame.
  destruct (same_members_same_state h items1 items2 Hwf Hsame)
    as (h' & E1 & E2).
  exists h'. split; [exact E1 | exact E2].
Qed.

Variable ln : float -> float.

(** X15. [hll_unique_count] gives the same result, value or exception,
    for two streams of strings with the same members: repeated items
    and the order of the stream do not move the estimate. *)
Theorem hll_unique_count_ignores_repeats (items1 items2 : list str)
  (pv : value) :
  (forall s, In s items1 <-> In s items2) ->
  hll_unique_count ln (map VStr items1) pv
  = hll_unique_count ln (map VStr items2) pv.
Proof.
  intros Hsame. unfold hll_unique_count.
  destruct (__init__ pv) as [h|e] eqn:E; [|reflexivity]. cbn [bind].
  destruct (same_members_same_state h items1 items2
              (hll_init_wf _ _ E) Hsame) as (h' & E1 & E2).
  now rewrite E1, E2.
Qed.

(** The constructor's result, spelled out. *)
Lemma init_value (q : Z) :
  4 <= q <= 20 ->
  exists a, __init__ (VInt q)
            = Ok (mkHyperLogLog q (2 ^ q) (repeat 0 (Z.to_nat (2 ^ q))) a).
Proof.
  intros Hq. unfold __init__. cbn [as_int].
  destruct (Z.ltb_spec q 4); [lia|].
  destruct (Z.ltb_spec 20 q); [lia|]. cbn [orb].
  rewrite Z.shiftl_1_l. eexists. reflexivity.
Qed.

(** X16. [hll_unique_count] raises [ValueError] for a precision outside
    [4, 20] whatever the stream holds, and for a precision inside it an
    empty stream takes the small-range branch: the result is
    [m * math.log(1.0)]. *)
Theorem hll_unique_count_edges (ips : list value) (q : Z) :
  (q < 4 \/ 20 < q -> hll_unique_count ln ips (VInt q) = Raise ValueError) /\
  (4 <= q <= 20 ->
   hll_unique_count ln [] (VInt q)
   = Ok (float_of_int (2 ^ q) * ln 1)%float).
Proof.
  split.
  - intros Hq. unfold hll_unique_count, __init__. cbn [as_int].
    destruct (Z.ltb_spec q 4); [reflexivity|].
    destruct (Z.ltb_spec 20 q); [reflexivity|]. lia.
  - intros Hq. unfold hll_unique_count.
    destruct (__init__ (VInt q)) as [h|e] eqn:E.
    2:{ destruct (init_value q Hq) as (a & E'). congruence. }
    cbn [bind foldM].
    pose proof (hll_init_wf _ _ E) as Hwf.
    destruct (estimate_facts.estimate_spec ln h Hwf) as (_ & _ & Eest).
    rewrite Eest. clear Eest.
    destruct (init_value q Hq) as (a & E'). rewrite E' in E.
    apply Ok_inj in E. subst h. cbn [m registers alpha p].
    rewrite fresh_sum, fresh_zero_count.
    rewrite Z2Nat.id by (apply Z.pow_nonneg; lia).
    assert (Hcases : q = 4 \/ q = 5 \/ q = 6 \/ q = 7 \/ q = 8 \/ q = 9 \/
                     q = 10 \/ q = 11 \/ q = 12 \/ q = 13 \/ q = 14 \/
                     q = 15 \/ q = 16 \/ q = 17 \/ q = 18 \/ q = 19 \/
                     q = 20) by lia.
    unfold __init__ in E'. cbn [as_int] in E'.
    destruct (Z.ltb_spec q 4); [lia|].
    destruct (Z.ltb_spec 20 q); [lia|]. cbn [orb] in E'.
    apply Ok_inj in E'.
    apply (f_equal alpha) in E'. cbn [alpha] in E'. subst a.
    repeat (destruct Hcases as [->|Hcases]; [vm_compute; reflexivity|]).
    subst q. vm_compute. reflexivity.
Qed.

End Facts.
End stream_props.

(* ================================================================== *)
(** * Further runs on concrete inputs *)
(* ================================================================== *)

Module more_examples.
Import task1 task2 samples spec3.

Lemma same_members_ab :
  forall s : str,
    In s [str_of_string "a"; str_of_string "b"; str_of_string "a"] <->
    In s [str_of_string "b"; str_of_string "a"].
Proof. intros s. cbn [In]. tauto. Qed.

Lemma bloom8_add_abc :
  @task1.add toy_hashlib bloom8 (text "abc") = Ok (mkBloomFilter 8 1 [1]).
Proof. reflexivity. Qed.

Lemma fresh_filter_contains_nothing_run :
  @task1.__init__ (VInt 8) (VInt 1) = Ok bloom8 /\
  @task1.contains toy_hashlib bloom8 (text "abc") = Ok false.
Proof.
  split; [exact examples.bloom8_init|].
  exact (@filter_props.fresh_filter_contains_nothing toy_hashlib
           (VInt 8) (VInt 1) bloom8 (str_of_string "abc") examples.bloom8_init).
Defined.

Lemma set_bit_then_get_bit_run :
  spec1.wf bloom8 /\
  exists bf', _set_bit bloom8 5 = Ok bf' /\ _get_bit bf' 5 = Ok 1.
Proof.
  split; [exact examples.bloom8_wf|].
  destruct (proj1 (filter_props.set_bit_then_get_bit bloom8 examples.bloom8_wf)
              5 ltac:(cbn; lia)) as (bf' & E & Eg & _).
  exists bf'. split; [exact E | exact Eg].
Defined.

Lemma add_never_clears_run :
  spec1.wf bloom8 /\
  @task1.add toy_hashlib bloom8 (text "abc") = Ok (mkBloomFilter 8 1 [1]) /\
  length (_bits (mkBloomFilter 8 1 [1])) = length (_bits bloom8).
Proof.
  split; [exact examples.bloom8_wf|]. split; [exact bloom8_add_abc|].
  exact (proj1 (proj2 (proj2
           (@filter_props.add_never_clears toy_hashlib bloom8
              (mkBloomFilter 8 1 [1]) (text "abc") examples.bloom8_wf
              bloom8_add_abc)))).
Defined.

Lemma contains_after_insertions_run :
  spec1.wf bloom8 /\
  exists bf',
    foldM (@task1.add toy_hashlib) (map VStr [str_of_string "abc"]) bloom8
    = Ok bf'.
Proof.
  split; [exact examples.bloom8_wf|].
  destruct (@filter_props.contains_after_insertions toy_hashlib bloom8
              [str_of_string "abc"] examples.bloom8_wf) as (bf' & E & _).
  exists bf'. exact E.
Defined.

Lemma filter_state_depends_on_set_run :
  exists bf',
    foldM (@task1.add toy_hashlib)
      (map VStr [str_of_string "a"; str_of_string "b"; str_of_string "a"])
      bloom8 = Ok bf' /\
    foldM (@task1.add toy_hashlib)
      (map VStr [str_of_string "b"; str_of_string "a"]) bloom8 = Ok bf'.
Proof.
  exact (@filter_props.filter_state_depends_on_set toy_hashlib bloom8 _ _
           examples.bloom8_wf same_members_ab).
Defined.






Lemma registers_hold_largest_rank_run :
  spec2.wf hll4 /\
  exists h',
    foldM (@task2.add toy_hashlib) (map VStr [str_of_string "abc"]) hll4
    = Ok h' /\
    length (registers h') = length (registers hll4).
Proof.
  split; [exact examples.hll4_wf|].
  destruct (@stream_props.registers_hold_largest_rank toy_hashlib hll4
              [str_of_string "abc"] examples.hll4_wf)
    as (h' & E & _ & _ & _ & _ & Hlen & _).
  exists h'. split; [exact E | exact Hlen].
Defined.

Lemma registers_depend_on_set_run :
  exists h',
    foldM (@task2.add toy_hashlib)
      (map VStr [str_of_string "a"; str_of_string "b"; str_of_string "a"])
      hll4 = Ok h' /\
    foldM (@task2.add toy_hashlib)
      (map VStr [str_of_string "b"; str_of_string "a"]) hll4 = Ok h'.
Proof.
  exact (@stream_props.registers_depend_on_set toy_hashlib hll4 _ _
           examples.hll4_wf same_members_ab).
Defined.

Lemma hll_unique_count_ignores_repeats_run :
  @task2.hll_unique_count toy_hashlib ln_stub
    (map VStr [str_of_string "a"; str_of_string "b"; str_of_string "a"])
    (VInt 4)
  = @task2.hll_unique_count toy_hashlib ln_stub
      (map VStr [str_of_string "b"; str_of_string "a"]) (VInt 4).
Proof.
  exact (@stream_props.hll_unique_count_ignores_repeats toy_hashlib ln_stub
           _ _ (VInt 4) same_members_ab).
Defined.

Lemma hll_unique_count_edges_run :
  @task2.hll_unique_count toy_hashlib ln_stub [text "a"] (VInt 21)
  = Raise ValueError /\
  @task2.hll_unique_count toy_hashlib ln_stub [] (VInt 14)
  = Ok (float_of_int (2 ^ 14) * ln_stub 1)%float.
Proof.
  split.
  - apply (proj1 (@stream_props.hll_unique_count_edges toy_hashlib ln_stub
                    [text "a"] 21)). lia.
  - apply (proj2 (@stream_props.hll_unique_count_edges toy_hashlib ln_stub
                    [] 14)). lia.
Defined.

End more_examples.
